(** * Duplicate detection and highlighting of spreadsheet rows

    A shallow embedding of [processDuplicates] (the spreadsheet adapter of the
    document-conversion utility) and the properties of its duplicate policy.

    The adapter decodes the first sheet of a workbook into an array of rows
    ([sheet_to_json] with [header: 1]), scans the rows once while keeping a
    [Set] of the keys seen so far and a [Set] of the indices of repeated rows,
    and hands either the filtered rows or a styled copy of the rows to the
    encoder ([aoa_to_sheet]).  Decoding and encoding belong to the spreadsheet
    library; the embedding starts at the decoded rows and ends at the array
    handed to the encoder.

    Strings are modelled as ASCII text, numeric cells as integers printed in
    decimal; the two sets are stdpp's [gset]. *)

From stdpp Require Import gmap strings list pretty.
From Stdlib Require Import Ascii ZArith Lia.

Local Open Scope Z_scope.
Local Open Scope nat_scope.

(** ** The JavaScript primitives the adapter calls *)

Module JS.

(** The double quote and the backslash, by code point. *)
Definition dquote : ascii := ascii_of_nat 34.
Definition backslash : ascii := ascii_of_nat 92.

(** [String.prototype.trim] strips white space and line terminators; on
    ASCII text these are TAB, LF, VT, FF, CR and SPACE. *)
Definition isWhiteSpace (c : ascii) : bool :=
  match nat_of_ascii c with
  | 9 | 10 | 11 | 12 | 13 | 32 => true
  | _ => false
  end.

Fixpoint trimStart (s : string) : string :=
  match s with
  | EmptyString => EmptyString
  | String c s' => if isWhiteSpace c then trimStart s' else s
  end.

Fixpoint trimEnd (s : string) : string :=
  match s with
  | EmptyString => EmptyString
  | String c s' =>
      match trimEnd s' with
      | EmptyString => if isWhiteSpace c then EmptyString else String c EmptyString
      | t => String c t
      end
  end.

Definition trim (s : string) : string := trimEnd (trimStart s).

(** [String.prototype.toLowerCase] on ASCII text. *)
Definition lowerChar (c : ascii) : ascii :=
  let n := nat_of_ascii c in
  if (65 <=? n) && (n <=? 90) then ascii_of_nat (n + 32) else c.

Fixpoint toLowerCase (s : string) : string :=
  match s with
  | EmptyString => EmptyString
  | String c s' => String (lowerChar c) (toLowerCase s')
  end.

(** [Array.prototype.join] on strings. *)
Fixpoint join (sep : string) (l : list string) : string :=
  match l with
  | [] => EmptyString
  | [x] => x
  | x :: l' => x +:+ sep +:+ join sep l'
  end.

(** [QuoteJSONString]: the escapes JSON.stringify writes inside a string. *)
Definition hexDigit (n : nat) : ascii :=
  if n <? 10 then ascii_of_nat (48 + n) else ascii_of_nat (87 + n).

Definition escapeChar (c : ascii) : string :=
  let n := nat_of_ascii c in
  if n =? 8 then String backslash "b"
  else if n =? 9 then String backslash "t"
  else if n =? 10 then String backslash "n"
  else if n =? 12 then String backslash "f"
  else if n =? 13 then String backslash "r"
  else if n =? 34 then String backslash (String dquote EmptyString)
  else if n =? 92 then String backslash (String backslash EmptyString)
  else if n <? 32 then
    String backslash ("u00" +:+ String (hexDigit (n / 16)) (String (hexDigit (n mod 16)) EmptyString))
  else String c EmptyString.

Fixpoint escapeString (s : string) : string :=
  match s with
  | EmptyString => EmptyString
  | String c s' => escapeChar c +:+ escapeString s'
  end.

Definition quoteJSONString (s : string) : string :=
  String dquote (escapeString s +:+ String dquote EmptyString).

End JS.

(** ** Cells, rows and options *)

(** A decoded cell is [any]: the decoder leaves a hole where the sheet has no
    cell, and writes [null], booleans, numbers and strings. *)
Inductive cell : Type :=
| CHole
| CUndefined
| CNull
| CBool (b : bool)
| CNum (n : Z)
| CStr (s : string).

Abbreviation row := (list cell).

(** [DuplicateOptions]: at run time both fields are strings; the interface
    picks ['row'] or ['col1'] and ['remove'] or ['highlight']. *)
Record DuplicateOptions : Type := {
  criteria : string;
  mode : string
}.

Definition FullRow : string := "row".
Definition FirstColumn : string := "col1".
Definition Remove : string := "remove".
Definition Highlight : string := "highlight".

(** ** Keys *)

(** [row[0]]: reading a hole or past the end gives [undefined]. *)
Definition index0 (r : row) : cell :=
  match r with
  | [] => CUndefined
  | CHole :: _ => CUndefined
  | c :: _ => c
  end.

(** ToBoolean. *)
Definition truthy (c : cell) : bool :=
  match c with
  | CHole | CUndefined | CNull => false
  | CBool b => b
  | CNum n => negb (n =? 0)%Z
  | CStr s => negb (bool_decide (s = EmptyString))
  end.

(** [c || ''] *)
Definition orEmpty (c : cell) : cell :=
  if truthy c then c else CStr EmptyString.

(** [String(c)] *)
Definition toString (c : cell) : string :=
  match c with
  | CHole | CUndefined => "undefined"
  | CNull => "null"
  | CBool true => "true"
  | CBool false => "false"
  | CNum n => pretty n
  | CStr s => s
  end.

(** An array element as JSON.stringify writes it: holes and [undefined]
    become [null]. *)
Definition stringifyElement (c : cell) : string :=
  match c with
  | CHole | CUndefined | CNull => "null"
  | CBool true => "true"
  | CBool false => "false"
  | CNum n => pretty n
  | CStr s => JS.quoteJSONString s
  end.

(** [JSON.stringify(row)] *)
Definition stringify (r : row) : string :=
  "[" +:+ JS.join "," (map stringifyElement r) +:+ "]".

(** The key of a row:
    [options.criteria === 'row' ? JSON.stringify(row)
       : String(row[0] || '').trim().toLowerCase()]. *)
Definition rowKey (options : DuplicateOptions) (r : row) : string :=
  if bool_decide (criteria options = FullRow) then stringify r
  else JS.toLowerCase (JS.trim (toString (orEmpty (index0 r)))).

(** The guard of the loop body: [key === '' || key === '[]']. *)
Definition skipped (key : string) : bool :=
  bool_decide (key = EmptyString) || bool_decide (key = "[]").

(** ** The scan *)

Record scanState : Type := {
  seen : gset string;
  duplicatesIndices : gset nat
}.

Definition initialState : scanState :=
  {| seen := ∅; duplicatesIndices := ∅ |}.

Section Scan.
Context {A : Type}.
Variable key : A → string.

(** The callback of [rows.forEach]. *)
Definition visit (st : scanState) (i : nat) (r : A) : scanState :=
  let k := key r in
  if skipped k then st
  else if bool_decide (k ∈ seen st) then
    {| seen := seen st; duplicatesIndices := {[ i ]} ∪ duplicatesIndices st |}
  else
    {| seen := {[ k ]} ∪ seen st; duplicatesIndices := duplicatesIndices st |}.

(** [forEach] over the rows from index [i] on. *)
Fixpoint forEachFrom (i : nat) (rows : list A) (st : scanState) : scanState :=
  match rows with
  | [] => st
  | r :: rest => forEachFrom (S i) rest (visit st i r)
  end.

(** [rows.filter((_, i) => keep(i))] from index [i] on. *)
Fixpoint filterFrom (keep : nat → bool) (i : nat) (rows : list A) : list A :=
  match rows with
  | [] => []
  | r :: rest =>
      if keep i then r :: filterFrom keep (S i) rest
      else filterFrom keep (S i) rest
  end.
End Scan.

Definition scanRows (options : DuplicateOptions) (rows : list row) : scanState :=
  forEachFrom (rowKey options) 0 rows initialState.

(** ** The array handed to the encoder *)

Record borderSide : Type := {
  border_style : string;
  border_color_rgb : string
}.

Record cellStyle : Type := {
  fill_fgColor_rgb : string;
  font_color_rgb : string;
  font_bold : bool;
  border_top : borderSide;
  border_bottom : borderSide;
  border_left : borderSide;
  border_right : borderSide
}.

(** The cell object [{ v, t, s }]; [s] is absent unless the row is highlighted. *)
Record cellObject : Type := {
  v : cell;
  t : string;
  s : option cellStyle
}.

(** [row.map] does not call its callback on a hole and leaves the hole. *)
Inductive styledSlot : Type :=
| SHole
| SCell (c : cellObject).

Inductive sheetData : Type :=
| PlainRows (rows : list row)
| StyledRows (rows : list (list styledSlot)).

(** The promise [processDuplicates] returns settles one way or the other. *)
Inductive outcome : Type :=
| Resolved (data : sheetData)
| Rejected (error : string).

Definition thinBlack : borderSide :=
  {| border_style := "thin"; border_color_rgb := "000000" |}.

Definition highlightStyle : cellStyle :=
  {| fill_fgColor_rgb := "FFFF00";
     font_color_rgb := "000000";
     font_bold := false;
     border_top := thinBlack;
     border_bottom := thinBlack;
     border_left := thinBlack;
     border_right := thinBlack |}.

(** [typeof cellValue === 'number' ? 'n' : 's'] *)
Definition cellType (c : cell) : string :=
  match c with
  | CNum _ => "n"
  | _ => "s"
  end.

(** The callback of [row.map], for a row with [isDuplicate && !isHeader]
    equal to [marked]. *)
Definition styleCell (marked : bool) (c : cell) : styledSlot :=
  match c with
  | CHole => SHole
  | _ => SCell {| v := c; t := cellType c;
                  s := if marked then Some highlightStyle else None |}
  end.

(** The callback of [rows.map]. *)
Definition styleRow (dups : gset nat) (i : nat) (r : row) : list styledSlot :=
  let isDuplicate := bool_decide (i ∈ dups) in
  let isHeader := bool_decide (i = 0) in
  map (styleCell (isDuplicate && negb isHeader)) r.

(** ** processDuplicates *)

(** The predicate of [rows.filter]: [(_, i) => !duplicatesIndices.has(i)]. *)
Definition notIn (D : gset nat) : nat → bool := λ i, negb (bool_decide (i ∈ D)).

Definition processDuplicates (rows : list row) (options : DuplicateOptions) : outcome :=
  let dups := duplicatesIndices (scanRows options rows) in
  if bool_decide (mode options = Remove) then
    Resolved (PlainRows (filterFrom (notIn dups) 0 rows))
  else
    Resolved (StyledRows (imap (styleRow dups) rows)).

(** ** The rows that survive a scan, as a function of the keys seen so far *)

Section Keep.
Context {A : Type}.
Variable key : A → string.

(** What the scan followed by the filter amounts to, without indices. *)
Fixpoint keepFresh (known : gset string) (rows : list A) : list A :=
  match rows with
  | [] => []
  | r :: rest =>
      if skipped (key r) then r :: keepFresh known rest
      else if bool_decide (key r ∈ known) then keepFresh known rest
      else r :: keepFresh ({[ key r ]} ∪ known) rest
  end.
End Keep.

(** The rows at the indices outside [D], in increasing order of index. *)
Definition withoutIndices {A : Type} (D : gset nat) (rows : list A) : list A :=
  omap (λ i, rows !! i) (filter (λ i, i ∉ D) (seq 0 (length rows))).

(** ** The vocabulary of the properties *)

(** A string of white space only. *)
Fixpoint whitespaceOnly (str : string) : bool :=
  match str with
  | EmptyString => true
  | String a str' => JS.isWhiteSpace a && whitespaceOnly str'
  end.

(** The first cell of a row is empty: the row has no first cell, or the
    cell holds no value, or it holds text of white space only. *)
Definition emptyCell (c : cell) : Prop :=
  match c with
  | CHole | CUndefined | CNull => True
  | CStr str => whitespaceOnly str = true
  | CBool _ | CNum _ => False
  end.

Definition emptyFirstCell (r : row) : Prop :=
  match r with
  | [] => True
  | c :: _ => emptyCell c
  end.

(** A falsy value that is not a string. *)
Definition falsyNonString (c : cell) : Prop :=
  truthy c = false ∧ ∀ str, c ≠ CStr str.

Definition firstCell (r : row) : cell :=
  match r with
  | [] => CUndefined
  | c :: _ => c
  end.

Definition slotValue (x : styledSlot) : cell :=
  match x with
  | SHole => CHole
  | SCell o => v o
  end.

Definition isThinBlack (b : borderSide) : Prop :=
  border_style b = "thin" ∧ border_color_rgb b = "000000".

(** The highlight marker: a fill colour, a thin black border on the four
    sides, and a black font that is not bold. *)
Definition highlightMarker (st : cellStyle) : Prop :=
  fill_fgColor_rgb st = "FFFF00" ∧
  isThinBlack (border_top st) ∧ isThinBlack (border_bottom st) ∧
  isThinBlack (border_left st) ∧ isThinBlack (border_right st) ∧
  font_bold st = false ∧ font_color_rgb st = "000000".

(** The marker sits on the cell objects of a row. *)
Definition carriesMarker (sr : list styledSlot) : Prop :=
  ∀ o, SCell o ∈ sr → ∃ st, s o = Some st ∧ highlightMarker st.

Definition unmarked (sr : list styledSlot) : Prop :=
  ∀ o, SCell o ∈ sr → s o = None.

Definition emptyTable (data : sheetData) : Prop :=
  match data with
  | PlainRows out => out = []
  | StyledRows out => out = []
  end.

(** What the two comparisons make of any pair of strings. *)
Definition effectiveOptions (options : DuplicateOptions) : DuplicateOptions :=
  {| criteria := if bool_decide (criteria options = FullRow) then FullRow else FirstColumn;
     mode := if bool_decide (mode options = Remove) then Remove else Highlight |}.

(** A row with an empty key: no cells under the full-row criterion, an empty
    first cell under the first-column criterion. *)
Definition emptyKeyRow (options : DuplicateOptions) (r : row) : Prop :=
  (criteria options = FullRow ∧ r = []) ∨
  (criteria options = FirstColumn ∧ emptyFirstCell r).

(** The table of the scenarios of the specification. *)
Definition scenarioRows : list row :=
  [[CStr "Name"; CStr "Qty"]; [CStr "A"; CNum 1]; [CStr "B"; CNum 2];
   [CStr "A"; CNum 1]; [CStr "C"; CNum 3]; [CStr "B"; CNum 9]].

(** ** The vocabulary of the further properties *)

(** [null], [undefined] and a hole are written alike by JSON.stringify. *)
Definition nullish (c : cell) : bool :=
  match c with
  | CHole | CUndefined | CNull => true
  | CBool _ | CNum _ | CStr _ => false
  end.

(** Two cells that JSON.stringify cannot tell apart. *)
Definition sameJSON (c c' : cell) : Prop :=
  (nullish c = true ∧ nullish c' = true) ∨ c = c'.

(** The rows on which the guard of the loop returns. *)
Definition skippedRows (options : DuplicateOptions) (rows : list row) : list row :=
  filter (λ r, skipped (rowKey options r) = true) rows.

(** The value of a lower-case hexadecimal digit. *)
Definition hexValue (a : ascii) : option nat :=
  let n := nat_of_ascii a in
  if (48 <=? n) && (n <=? 57) then Some (n - 48)
  else if (97 <=? n) && (n <=? 102) then Some (n - 87)
  else None.

(** Reading back the first character [JS.escapeString] wrote: the inverse of
    [JS.escapeChar] on the head of a string, undefined at a bare quote. *)
Definition unescapeHead (str : string) : option (ascii * string) :=
  match str with
  | EmptyString => None
  | String h rest =>
      if bool_decide (h = JS.dquote) then None
      else if bool_decide (h = JS.backslash) then
        match rest with
        | EmptyString => None
        | String k rest' =>
            if bool_decide (k = JS.dquote) then Some (JS.dquote, rest')
            else if bool_decide (k = JS.backslash) then Some (JS.backslash, rest')
            else match k with
            | "b" => Some (ascii_of_nat 8, rest')
            | "t" => Some (ascii_of_nat 9, rest')
            | "n" => Some (ascii_of_nat 10, rest')
            | "f" => Some (ascii_of_nat 12, rest')
            | "r" => Some (ascii_of_nat 13, rest')
            | "u" =>
                match rest' with
                | String _ (String _ (String h1 (String h2 rest''))) =>
                    match hexValue h1, hexValue h2 with
                    | Some d1, Some d2 => Some (ascii_of_nat (16 * d1 + d2), rest'')
                    | _, _ => None
                    end
                | _ => None
                end
            | _ => None
            end%char
        end
      else Some (h, rest)
  end.

(** What follows the first element inside the brackets: each further element
    behind a comma, then the closing bracket. *)
Fixpoint elementsTail (l : list string) : string :=
  match l with
  | [] => "]"
  | e :: l' => "," +:+ e +:+ elementsTail l'
  end.

(** The characters of a number in decimal: the digits and the minus sign. *)
Definition numericChar (a : ascii) : bool :=
  let n := nat_of_ascii a in
  ((48 <=? n) && (n <=? 57)) || (n =? 45).

Fixpoint allChars (P : ascii → bool) (str : string) : bool :=
  match str with
  | EmptyString => true
  | String a str' => P a && allChars P str'
  end.

(** A string that starts with a comma or a closing bracket. *)
Definition terminated (str : string) : Prop :=
  match str with
  | String a _ => a = ","%char ∨ a = "]"%char
  | EmptyString => False
  end.

(** ** cleanExcel *)

(** [cleanExcel] is about text that is not ASCII.  In this part a character
    stands for the code point of its value, so the model covers text below
    U+0100; the code points are numbers because normalisation leaves that
    range. *)
Module Unicode.

Definition codePoints (str : string) : list N :=
  map N_of_ascii (String.list_ascii_of_string str).

Definition fromCodePoints (l : list N) : string :=
  String.string_of_list_ascii (map ascii_of_N l).

(** The canonical decomposition of the code points below U+0100: a letter
    with a diacritic is its base letter followed by the combining mark. *)
Definition canonicalDecomposition (p : N) : list N :=
  match p with
  | 0xC0 => [0x41; 0x300] | 0xC1 => [0x41; 0x301] | 0xC2 => [0x41; 0x302]
  | 0xC3 => [0x41; 0x303] | 0xC4 => [0x41; 0x308] | 0xC5 => [0x41; 0x30A]
  | 0xC7 => [0x43; 0x327]
  | 0xC8 => [0x45; 0x300] | 0xC9 => [0x45; 0x301] | 0xCA => [0x45; 0x302]
  | 0xCB => [0x45; 0x308]
  | 0xCC => [0x49; 0x300] | 0xCD => [0x49; 0x301] | 0xCE => [0x49; 0x302]
  | 0xCF => [0x49; 0x308]
  | 0xD1 => [0x4E; 0x303]
  | 0xD2 => [0x4F; 0x300] | 0xD3 => [0x4F; 0x301] | 0xD4 => [0x4F; 0x302]
  | 0xD5 => [0x4F; 0x303] | 0xD6 => [0x4F; 0x308]
  | 0xD9 => [0x55; 0x300] | 0xDA => [0x55; 0x301] | 0xDB => [0x55; 0x302]
  | 0xDC => [0x55; 0x308]
  | 0xDD => [0x59; 0x301]
  | 0xE0 => [0x61; 0x300] | 0xE1 => [0x61; 0x301] | 0xE2 => [0x61; 0x302]
  | 0xE3 => [0x61; 0x303] | 0xE4 => [0x61; 0x308] | 0xE5 => [0x61; 0x30A]
  | 0xE7 => [0x63; 0x327]
  | 0xE8 => [0x65; 0x300] | 0xE9 => [0x65; 0x301] | 0xEA => [0x65; 0x302]
  | 0xEB => [0x65; 0x308]
  | 0xEC => [0x69; 0x300] | 0xED => [0x69; 0x301] | 0xEE => [0x69; 0x302]
  | 0xEF => [0x69; 0x308]
  | 0xF1 => [0x6E; 0x303]
  | 0xF2 => [0x6F; 0x300] | 0xF3 => [0x6F; 0x301] | 0xF4 => [0x6F; 0x302]
  | 0xF5 => [0x6F; 0x303] | 0xF6 => [0x6F; 0x308]
  | 0xF9 => [0x75; 0x300] | 0xFA => [0x75; 0x301] | 0xFB => [0x75; 0x302]
  | 0xFC => [0x75; 0x308]
  | 0xFD => [0x79; 0x301] | 0xFF => [0x79; 0x308]
  | _ => [p]
  end%N.

(** [normalize('NFD')]: text below U+0100 holds no combining mark, so no
    mark is reordered. *)
Definition normalizeNFD (l : list N) : list N :=
  flat_map canonicalDecomposition l.

End Unicode.

(** The class [\u0300-\u036f]. *)
Definition isCombiningMark (p : N) : bool :=
  ((0x300 <=? p) && (p <=? 0x36F))%N.

(** The class [\x20-\x7E]. *)
Definition isPrintable (p : N) : bool :=
  ((0x20 <=? p) && (p <=? 0x7E))%N.

(** [.normalize('NFD').replace(/[\u0300-\u036f]/g, '')
      .replace(/[^\x20-\x7E]/g, '')] *)
Definition cleanBody (str : string) : string :=
  Unicode.fromCodePoints
    (filter (λ p, isPrintable p = true)
       (filter (λ p, isCombiningMark p = false)
          (Unicode.normalizeNFD (Unicode.codePoints str)))).

(** The text a string cell is replaced by. *)
Definition cleanString (str : string) : string :=
  JS.trim (cleanBody str).

(** The callback of [row.map] in [cleanExcel]. *)
Definition cleanCell (c : cell) : cell :=
  match c with
  | CStr str => CStr (cleanString str)
  | _ => c
  end.

(** [data.map(row => row.map(...))] *)
Definition cleanRows (rows : list row) : list row :=
  map (map cleanCell) rows.

(** A character of the class [\x20-\x7E]. *)
Definition printableChar (a : ascii) : bool :=
  isPrintable (N_of_ascii a).

Definition headChar (str : string) : option ascii :=
  match str with
  | EmptyString => None
  | String a _ => Some a
  end.

Fixpoint lastChar (str : string) : option ascii :=
  match str with
  | EmptyString => None
  | String a EmptyString => Some a
  | String _ str' => lastChar str'
  end.

(** Printable text with no white space at either end. *)
Definition cleanText (str : string) : Prop :=
  allChars printableChar str = true ∧
  (∀ a, headChar str = Some a → JS.isWhiteSpace a = false) ∧
  (∀ a, lastChar str = Some a → JS.isWhiteSpace a = false).

(** ** The menu endpoint: dictionaryFix and the daily quota *)

(** The own properties of [DICTIONARY]. *)
Definition DICTIONARY : gmap string string :=
  list_to_map [("chiken", "Chicken"); ("buter naan", "Butter Naan");
               ("french fires", "French Fries")].

(** [DICTIONARY] is an object literal, so a lookup that finds no own
    property goes on to [Object.prototype]. *)
Definition objectPrototypeProperties : list string :=
  ["constructor"; "__defineGetter__"; "__defineSetter__"; "hasOwnProperty";
   "__lookupGetter__"; "__lookupSetter__"; "isPrototypeOf";
   "propertyIsEnumerable"; "toString"; "valueOf"; "__proto__"; "toLocaleString"].

(** What a lookup or [dictionaryFix] can return: a text, or the function or
    object [Object.prototype] holds under a name. *)
Inductive fixValue : Type :=
| FUndefined
| FText (text : string)
| FInherited (name : string).

(** [DICTIONARY[key]] *)
Definition getProperty (key : string) : fixValue :=
  match DICTIONARY !! key with
  | Some text => FText text
  | None =>
      if bool_decide (key ∈ objectPrototypeProperties) then FInherited key
      else FUndefined
  end.

Definition fixValue_truthy (x : fixValue) : bool :=
  match x with
  | FUndefined => false
  | FText text => negb (bool_decide (text = EmptyString))
  | FInherited _ => true
  end.

(** No upper-case ASCII letter. *)
Definition notUpperChar (a : ascii) : bool :=
  negb ((65 <=? nat_of_ascii a) && (nat_of_ascii a <=? 90)).

(** [const key = text.toLowerCase().trim(); return DICTIONARY[key] || text;] *)
Definition dictionaryFix (text : string) : fixValue :=
  let key := JS.trim (JS.toLowerCase text) in
  let found := getProperty key in
  if fixValue_truthy found then found else FText text.

Definition DAILY_LIMIT : nat := 80.
Definition WARNING_AT : nat := 60.

(** [dailyUsage] and [alertSentToday]. *)
Record quotaState : Type := {
  usage_date : string;
  usage_count : nat;
  alertSentToday : bool
}.

(** The start of a request: the counter is reset on a new day. *)
Definition resetIfNewDay (today : string) (st : quotaState) : quotaState :=
  if bool_decide (usage_date st ≠ today) then
    {| usage_date := today; usage_count := 0; alertSentToday := false |}
  else st.

(** What the callback of [eachCell] decides for a text cell before its first
    [await]: the quota is exhausted and the dictionary is used, or the cell
    is counted and goes on to the model, and then [alerting] tells whether
    the counter has just reached [WARNING_AT] and [sendQuotaAlert] is called
    first. *)
Inductive quotaCheck : Type :=
| QuotaExceeded
| Counted (alerting : bool).

Definition checkQuota (st : quotaState) : quotaState * quotaCheck :=
  if DAILY_LIMIT <=? usage_count st then (st, QuotaExceeded)
  else
    let st' := {| usage_date := usage_date st;
                  usage_count := S (usage_count st);
                  alertSentToday := alertSentToday st |} in
    (st', Counted (usage_count st' =? WARNING_AT)).

(** The text cells of a sheet, one after the other. *)
Fixpoint checkQuotaCells (n : nat) (st : quotaState) : quotaState * list quotaCheck :=
  match n with
  | 0 => (st, [])
  | S n' =>
      let (st', a) := checkQuota st in
      let (st'', rest) := checkQuotaCells n' st' in
      (st'', a :: rest)
  end.

(** [sendQuotaAlert] once the mail is out. *)
Definition alertSent (st : quotaState) : quotaState :=
  {| usage_date := usage_date st; usage_count := usage_count st;
     alertSentToday := true |}.

(** What can happen to the module state, in the order it happens. *)
Inductive quotaEvent : Type :=
| RequestAt (today : string)
| TextCell
| AlertMailSent.

Definition quotaStep (st : quotaState) (e : quotaEvent) : quotaState :=
  match e with
  | RequestAt today => resetIfNewDay today st
  | TextCell => fst (checkQuota st)
  | AlertMailSent => alertSent st
  end.

Definition passesQuota (a : quotaCheck) : bool :=
  match a with
  | QuotaExceeded => false
  | Counted _ => true
  end.

Definition isAlerting (a : quotaCheck) : bool :=
  match a with
  | Counted true => true
  | _ => false
  end.

(** ** The file list of the workspace *)

Record file : Type := {
  file_name : string;
  file_size : nat
}.

(** [newFiles.filter(file => file && file.size > 0)]; an entry that is not a
    file is [None]. *)
Definition validFiles (newFiles : list (option file)) : list file :=
  omap (λ entry,
    match entry with
    | Some f => if 0 <? file_size f then Some f else None
    | None => None
    end) newFiles.

(** [setFiles(prev => tool.multiple ? [...prev, ...validFiles] : validFiles)] *)
Definition addFiles (multiple : bool) (newFiles : list (option file))
    (prev : list file) : list file :=
  if multiple then prev ++ validFiles newFiles else validFiles newFiles.

(** [setFiles(prev => prev.filter((_, i) => i !== index))] *)
Definition removeFile (index : nat) (prev : list file) : list file :=
  filterFrom (λ i, negb (i =? index)) 0 prev.

Inductive fileEvent : Type :=
| AddFiles (newFiles : list (option file))
| RemoveFile (index : nat)
| ClearAll.

Definition fileStep (multiple : bool) (files : list file) (e : fileEvent) : list file :=
  match e with
  | AddFiles newFiles => addFiles multiple newFiles files
  | RemoveFile index => removeFile index files
  | ClearAll => []
  end.

(** * Properties of the scan *)

Section ScanFacts.
Context {A : Type}.
Variable key : A → string.

Implicit Types (st : scanState) (rows : list A) (i j p q : nat) (k : string).

Lemma visit_seen st i r k :
  k ∈ seen (visit key st i r) ↔ k ∈ seen st ∨ (skipped k = false ∧ key r = k).
Proof.
  unfold visit. destruct (skipped (key r)) eqn:Hs.
  - split; [auto|]. intros [?|[Hk <-]]; [done|congruence].
  - case_bool_decide; simpl.
    + split; [auto|]. intros [?|[_ <-]]; done.
    + rewrite elem_of_union, elem_of_singleton.
      split; [intros [->|?]; auto|intros [?|[_ <-]]; auto].
Qed.

Lemma visit_dups st i r j :
  j ∈ duplicatesIndices (visit key st i r) ↔
  j ∈ duplicatesIndices st ∨ (j = i ∧ skipped (key r) = false ∧ key r ∈ seen st).
Proof.
  unfold visit. destruct (skipped (key r)) eqn:Hs.
  - split; [auto|]. intros [?|(_ & ? & _)]; [done|congruence].
  - case_bool_decide; simpl.
    + rewrite elem_of_union, elem_of_singleton.
      split; [intros [->|?]; auto|intros [?|(-> & _)]; auto].
    + split; [auto|]. intros [?|(_ & _ & ?)]; done.
Qed.

(** Indices below the start of a scan are left as they were. *)
Lemma forEachFrom_dups_below rows i st j :
  j < i →
  j ∈ duplicatesIndices (forEachFrom key i rows st) ↔ j ∈ duplicatesIndices st.
Proof.
  revert i st. induction rows as [|r rest IH]; intros i st Hj; simpl; [done|].
  rewrite IH by lia. rewrite visit_dups. split; [|auto].
  intros [?|(-> & _)]; [done|lia].
Qed.

(** The keys a scan has seen: those it started with and the keys of the rows
    that pass the guard. *)
Lemma forEachFrom_seen rows i st k :
  k ∈ seen (forEachFrom key i rows st) ↔
  k ∈ seen st ∨ (skipped k = false ∧ ∃ r, r ∈ rows ∧ key r = k).
Proof.
  revert i st. induction rows as [|r rest IH]; intros i st; simpl.
  - split; [auto|]. intros [?|(_ & r & Hr & _)]; [done|].
    by apply elem_of_nil in Hr.
  - rewrite IH, visit_seen. split.
    + intros [[?|[? ?]]|(? & r' & ? & ?)]; [by left|right..].
      * split; [done|]. exists r. split; [left|done].
      * split; [done|]. exists r'. split; [by right|done].
    + intros [?|(Hk & r' & Hr' & Hkey)]; [by left; left|].
      apply elem_of_cons in Hr' as [->|?].
      * left; right; done.
      * right. split; [done|]. by exists r'.
Qed.

(** The row at position [p] of a scan started at index [i] is marked exactly
    when its key passes the guard and was seen before it. *)
Lemma forEachFrom_dups rows i st p :
  (i + p) ∈ duplicatesIndices (forEachFrom key i rows st) ↔
  (i + p) ∈ duplicatesIndices st ∨
  ∃ r, rows !! p = Some r ∧ skipped (key r) = false ∧
       (key r ∈ seen st ∨ ∃ q r', q < p ∧ rows !! q = Some r' ∧ key r' = key r).
Proof.
  revert i st p. induction rows as [|r0 rest IH]; intros i st p; simpl.
  - split; [auto|]. intros [?|(r & Hr & _)]; [done|].
    by rewrite lookup_nil in Hr.
  - destruct p as [|p].
    + rewrite Nat.add_0_r, forEachFrom_dups_below, visit_dups by lia. split.
      * intros [?|(_ & ? & ?)]; [by left|right]. exists r0. auto.
      * intros [?|(r & [= <-] & ? & [?|(q & _ & ? & _)])]; [by left|right; auto|lia].
    + replace (i + S p) with (S i + p) by lia.
      rewrite IH, visit_dups. split.
      * intros [[?|(? & _)]|(r & Hr & Hs & Hk)]; [by left|lia|right].
        exists r. split; [done|]. split; [done|].
        destruct Hk as [Hk|(q & r' & ? & ? & ?)].
        -- apply visit_seen in Hk as [?|[_ ?]]; [by left|right].
           exists 0, r0. split; [lia|done].
        -- right. exists (S q), r'. split; [lia|done].
      * intros [?|(r & Hr & Hs & Hk)]; [by left; left|right].
        simpl in Hr. exists r. split; [done|]. split; [done|].
        destruct Hk as [?|(q & r' & Hq & Hr' & Hkey)].
        -- left. apply visit_seen. by left.
        -- destruct q as [|q]; simpl in Hr'.
           ++ injection Hr' as <-. left. apply visit_seen. right.
              split; done.
           ++ right. exists q, r'. split; [lia|done].
Qed.

(** A scan from the initial state. *)
Lemma scan_dups rows j :
  j ∈ duplicatesIndices (forEachFrom key 0 rows initialState) ↔
  ∃ r, rows !! j = Some r ∧ skipped (key r) = false ∧
       ∃ q r', q < j ∧ rows !! q = Some r' ∧ key r' = key r.
Proof.
  rewrite (forEachFrom_dups rows 0 initialState j). simpl. split.
  - intros [H|(r & ? & ? & [H|?])]; [by apply not_elem_of_empty in H| |by exists r].
    by apply not_elem_of_empty in H.
  - intros (r & ? & ? & ?). right. exists r. auto.
Qed.

Lemma scan_dups_lt rows j :
  j ∈ duplicatesIndices (forEachFrom key 0 rows initialState) → j < length rows.
Proof.
  intros (r & Hr & _)%scan_dups. by apply lookup_lt_Some in Hr.
Qed.

Lemma scan_seen rows k :
  k ∈ seen (forEachFrom key 0 rows initialState) ↔
  skipped k = false ∧ ∃ r, r ∈ rows ∧ key r = k.
Proof.
  rewrite forEachFrom_seen. simpl. split; [|auto].
  intros [H|?]; [by apply not_elem_of_empty in H|done].
Qed.
End ScanFacts.

(** * Properties of the filter *)

Section FilterFacts.
Context {A : Type}.
Variable key : A → string.

Implicit Types (st : scanState) (rows : list A) (i j p q : nat) (D : gset nat).

Lemma filterFrom_ext (f g : nat → bool) i rows :
  (∀ j, i ≤ j → f j = g j) → filterFrom f i rows = filterFrom g i rows.
Proof.
  revert i. induction rows as [|r rest IH]; intros i Hfg; simpl; [done|].
  rewrite (Hfg i) by lia. rewrite (IH (S i)); [done|].
  intros j ?. apply Hfg. lia.
Qed.

Lemma filterFrom_sublist (f : nat → bool) i rows :
  sublist (filterFrom f i rows) rows.
Proof.
  revert i. induction rows as [|r rest IH]; intros i; simpl; [constructor|].
  destruct (f i); [apply sublist_skip|apply sublist_cons]; apply IH.
Qed.

Lemma omap_ext_elem {B C : Type} (f g : B → option C) (l : list B) :
  (∀ x, x ∈ l → f x = g x) → omap f l = omap g l.
Proof.
  induction l as [|x l IH]; intros Hfg; csimpl; [done|].
  rewrite (Hfg x) by left. rewrite IH; [done|].
  intros y ?. apply Hfg. by right.
Qed.

(** The filter written with indices. *)
Lemma filterFrom_seq (f : nat → bool) i rows :
  filterFrom f i rows =
  omap (λ j, rows !! (j - i)) (filter (λ j, f j = true) (seq i (length rows))).
Proof.
  revert i. induction rows as [|r rest IH]; intros i; simpl; [done|].
  assert (omap (λ j, (r :: rest) !! (j - i))
            (filter (λ j, f j = true) (seq (S i) (length rest)))
          = omap (λ j, rest !! (j - S i))
            (filter (λ j, f j = true) (seq (S i) (length rest)))) as Htail.
  { apply omap_ext_elem. intros j Hj.
    apply list_elem_of_filter in Hj as [_ Hj]. apply elem_of_seq in Hj.
    replace (j - i) with (S (j - S i)) by lia. done. }
  rewrite filter_cons. destruct (f i) eqn:Hfi.
  - rewrite decide_True by done. csimpl. rewrite Nat.sub_diag. csimpl.
    rewrite Htail, <- IH. done.
  - rewrite decide_False by done. rewrite Htail, <- IH. done.
Qed.

Lemma filterFrom_withoutIndices D rows :
  filterFrom (notIn D) 0 rows = withoutIndices D rows.
Proof.
  rewrite filterFrom_seq. unfold withoutIndices.
  rewrite (list_filter_iff (λ j, notIn D j = true) (λ j, j ∉ D)).
  - apply omap_ext_elem. intros j _. by rewrite Nat.sub_0_r.
  - intros j. unfold notIn. rewrite negb_true_iff, bool_decide_eq_false. done.
Qed.

(** Scanning and then filtering keeps the rows [keepFresh] keeps. *)
Lemma filterFrom_keepFresh rows i st :
  (∀ j, j ∈ duplicatesIndices st → j < i) →
  filterFrom (notIn (duplicatesIndices (forEachFrom key i rows st))) i rows
  = keepFresh key (seen st) rows.
Proof.
  revert i st. induction rows as [|r rest IH]; intros i st Hlt; simpl; [done|].
  assert (∀ j, j ∈ duplicatesIndices (visit key st i r) → j < S i) as Hlt'.
  { intros j [?|(-> & _)]%visit_dups; [|lia].
    assert (j < i) by auto. lia. }
  specialize (IH (S i) (visit key st i r) Hlt').
  assert (i ∈ duplicatesIndices (forEachFrom key (S i) rest (visit key st i r))
          ↔ skipped (key r) = false ∧ key r ∈ seen st) as Hi.
  { rewrite forEachFrom_dups_below, visit_dups by lia. split.
    - intros [Hi|(_ & ? & ?)]; [|done]. apply Hlt in Hi. lia.
    - intros [? ?]. right. done. }
  rewrite IH. unfold visit.
  destruct (skipped (key r)) eqn:Hs; simpl.
  - assert (notIn (duplicatesIndices (forEachFrom key (S i) rest st)) i = true) as ->; [|done].
    unfold notIn. rewrite bool_decide_eq_false_2; [done|].
    intros Hin. revert Hi. unfold visit. rewrite Hs. intros Hi.
    apply Hi in Hin as [? _]. done.
  - revert Hi. unfold visit. rewrite Hs. case_bool_decide as Hk; intros Hi.
    + match goal with |- (if ?b then _ else _) = _ => assert (b = false) as -> end; [|done].
      unfold notIn. rewrite bool_decide_eq_true_2; [done|]. apply Hi. done.
    + match goal with |- (if ?b then _ else _) = _ => assert (b = true) as -> end; [|done].
      unfold notIn. rewrite bool_decide_eq_false_2; [done|].
      intros Hin. apply Hi in Hin as [_ ?]. done.
Qed.

(** Each marked row is one row fewer in the output. *)
Lemma filterFrom_length rows i st :
  (∀ j, j ∈ duplicatesIndices st → j < i) →
  length (filterFrom (notIn (duplicatesIndices (forEachFrom key i rows st))) i rows)
  + size (duplicatesIndices (forEachFrom key i rows st))
  = length rows + size (duplicatesIndices st).
Proof.
  revert i st. induction rows as [|r rest IH]; intros i st Hlt; simpl; [done|].
  assert (∀ j, j ∈ duplicatesIndices (visit key st i r) → j < S i) as Hlt'.
  { intros j [?|(-> & _)]%visit_dups; [|lia].
    assert (j < i) by auto. lia. }
  specialize (IH (S i) (visit key st i r) Hlt').
  assert (i ∉ duplicatesIndices st) as Hfresh.
  { intros Hi. apply Hlt in Hi. lia. }
  assert (notIn (duplicatesIndices (forEachFrom key (S i) rest (visit key st i r))) i
          = notIn (duplicatesIndices (visit key st i r)) i) as ->.
  { unfold notIn. f_equal. apply bool_decide_ext.
    apply forEachFrom_dups_below. lia. }
  revert IH. unfold visit.
  destruct (skipped (key r)); simpl.
  - unfold notIn at 2. rewrite bool_decide_eq_false_2 by done. simpl. lia.
  - case_bool_decide; simpl.
    + unfold notIn at 2. rewrite bool_decide_eq_true_2 by set_solver. simpl.
      rewrite size_union by set_solver. rewrite size_singleton. lia.
    + unfold notIn at 2. rewrite bool_decide_eq_false_2 by done. simpl. lia.
Qed.

(** ** [keepFresh] *)

Lemma keepFresh_idempotent (known : gset string) rows :
  keepFresh key known (keepFresh key known rows) = keepFresh key known rows.
Proof.
  revert known. induction rows as [|r rest IH]; intros known; simpl; [done|].
  destruct (skipped (key r)) eqn:Hs; simpl.
  - by rewrite Hs, IH.
  - case_bool_decide as Hk; simpl; [done|].
    rewrite Hs. rewrite bool_decide_eq_false_2 by done. by rewrite IH.
Qed.

(** A kept row whose key passes the guard carries a key that is neither
    known beforehand nor carried by a row kept before it. *)
Lemma keepFresh_keys (known : gset string) rows p r :
  keepFresh key known rows !! p = Some r →
  skipped (key r) = false →
  (key r ∉ known) ∧
  (∀ q r', q < p → keepFresh key known rows !! q = Some r' → key r' ≠ key r).
Proof.
  revert known p. induction rows as [|r0 rest IH]; intros known p; simpl.
  - by rewrite lookup_nil.
  - destruct (skipped (key r0)) eqn:Hs0.
    + destruct p as [|p]; simpl.
      * intros [= ->] Hs. congruence.
      * intros Hp Hs. destruct (IH _ _ Hp Hs) as [Hk Hq]. split; [done|].
        intros [|q] r' ?; simpl.
        -- intros [= <-] Heq. congruence.
        -- apply Hq. lia.
    + case_bool_decide as Hk0; [apply IH|].
      destruct p as [|p]; simpl.
      * intros [= ->] _. split; [done|]. intros q r' ?. lia.
      * intros Hp Hs. destruct (IH _ _ Hp Hs) as [Hk Hq].
        apply not_elem_of_union in Hk as [Hne Hk]. split; [done|].
        intros [|q] r' ?; simpl.
        -- intros [= <-] Heq. apply Hne, elem_of_singleton. done.
        -- apply Hq. lia.
Qed.
End FilterFacts.

(** * Properties of the keys *)

Section KeyFacts.

Implicit Types (r : row) (c : cell) (options : DuplicateOptions).

Lemma pretty_N_go_nonempty (x : N) (c : ascii) (acc : string) :
  pretty_N_go x (String c acc) ≠ EmptyString.
Proof.
  revert c acc. induction (N.lt_wf_0 x) as [x _ IH]; intros c acc.
  destruct (decide (x = 0%N)) as [->|Hx].
  - by rewrite pretty_N_go_0.
  - rewrite pretty_N_go_step by lia. apply IH. apply N.div_lt; lia.
Qed.

Lemma pretty_N_nonempty (x : N) : pretty x ≠ EmptyString.
Proof.
  unfold pretty, pretty_N. case_decide; [done|].
  rewrite pretty_N_go_step by lia. apply pretty_N_go_nonempty.
Qed.

Lemma pretty_Z_nonempty (n : Z) : pretty n ≠ EmptyString.
Proof.
  destruct n as [|x|x]; [done| |done].
  apply (pretty_N_nonempty (N.pos x)).
Qed.

Lemma stringifyElement_nonempty c : stringifyElement c ≠ EmptyString.
Proof.
  destruct c as [| | |[]|n|str]; try done. apply pretty_Z_nonempty.
Qed.

Lemma join_cons_nonempty (sep x : string) (l : list string) :
  x ≠ EmptyString → JS.join sep (x :: l) ≠ EmptyString.
Proof. intros Hx. destruct l, x; done. Qed.

Lemma stringify_nonempty r : stringify r ≠ EmptyString.
Proof. done. Qed.

(** Only the array without elements is written as an opening bracket
    followed at once by the closing one. *)
Lemma stringify_brackets r : stringify r = "[]" ↔ r = [].
Proof.
  split; [|by intros ->].
  destruct r as [|c rest]; [done|]. unfold stringify. intros Heq. exfalso.
  pose proof (join_cons_nonempty "," (stringifyElement c)
                (map stringifyElement rest) (stringifyElement_nonempty c)) as Hne.
  change (map stringifyElement (c :: rest))
    with (stringifyElement c :: map stringifyElement rest) in Heq.
  destruct (JS.join "," (stringifyElement c :: map stringifyElement rest))
    as [|a tl]; [done|].
  injection Heq as _ Htl. destruct tl; discriminate.
Qed.

Lemma rowKey_FullRow options r :
  criteria options = FullRow → rowKey options r = stringify r.
Proof. intros H. unfold rowKey. by rewrite bool_decide_eq_true_2. Qed.

Lemma rowKey_first options r :
  criteria options ≠ FullRow →
  rowKey options r = JS.toLowerCase (JS.trim (toString (orEmpty (index0 r)))).
Proof. intros H. unfold rowKey. by rewrite bool_decide_eq_false_2. Qed.

(** Under the full-row criterion the guard lets through every row but the
    one without cells. *)
Lemma skipped_FullRow options r :
  criteria options = FullRow →
  skipped (rowKey options r) = true ↔ r = [].
Proof.
  intros H. rewrite rowKey_FullRow by done. unfold skipped.
  rewrite orb_true_iff, !bool_decide_eq_true, stringify_brackets.
  split; [intros [?|?]; [by destruct (stringify_nonempty r)|done]|auto].
Qed.

Lemma trimStart_whitespaceOnly str :
  whitespaceOnly str = true → JS.trimStart str = EmptyString.
Proof.
  induction str as [|a str IH]; simpl; [done|].
  intros [Ha Hs]%andb_true_iff. rewrite Ha. auto.
Qed.

Lemma trim_whitespaceOnly str :
  whitespaceOnly str = true → JS.trim str = EmptyString.
Proof. intros H. unfold JS.trim. by rewrite trimStart_whitespaceOnly. Qed.

(** The converse: only white space trims to nothing. *)
Lemma trimEnd_empty str :
  JS.trimEnd str = EmptyString → whitespaceOnly str = true.
Proof.
  induction str as [|a str IH]; simpl; [done|].
  destruct (JS.trimEnd str); [|done].
  destruct (JS.isWhiteSpace a); [auto|done].
Qed.

Lemma trimStart_empty str :
  whitespaceOnly (JS.trimStart str) = true → whitespaceOnly str = true.
Proof.
  induction str as [|a str IH]; simpl; [done|].
  destruct (JS.isWhiteSpace a) eqn:Ha; simpl; [auto|].
  rewrite Ha. done.
Qed.

Lemma trim_empty_iff str :
  JS.trim str = EmptyString ↔ whitespaceOnly str = true.
Proof.
  split; [|apply trim_whitespaceOnly].
  intros H. apply trimStart_empty, trimEnd_empty, H.
Qed.

Lemma toLowerCase_empty_iff str :
  JS.toLowerCase str = EmptyString ↔ str = EmptyString.
Proof. destruct str; done. Qed.

Lemma rowKey_emptyFirstCell options r :
  criteria options ≠ FullRow → emptyFirstCell r →
  rowKey options r = EmptyString.
Proof.
  intros H Hr. rewrite rowKey_first by done.
  destruct r as [|[| | |b|n|str] rest]; try done. simpl in Hr.
  unfold orEmpty, index0, truthy. case_bool_decide as Hstr; simpl.
  - done.
  - by rewrite trim_whitespaceOnly.
Qed.

Lemma rowKey_falsyNonString options r :
  criteria options ≠ FullRow → falsyNonString (firstCell r) →
  rowKey options r = EmptyString.
Proof.
  intros H [Hf Hns]. rewrite rowKey_first by done.
  destruct r as [|[| | |b|n|str] rest]; simpl in *; try done.
  - by subst b.
  - unfold orEmpty. simpl. by rewrite Hf.
  - by destruct (Hns str).
Qed.
End KeyFacts.

(** * processDuplicates *)

Section ProcessFacts.

Implicit Types (rows : list row) (r : row) (options : DuplicateOptions).

Lemma scanRows_dups options rows j :
  j ∈ duplicatesIndices (scanRows options rows) ↔
  ∃ r, rows !! j = Some r ∧ skipped (rowKey options r) = false ∧
       ∃ q r', q < j ∧ rows !! q = Some r' ∧ rowKey options r' = rowKey options r.
Proof. apply scan_dups. Qed.

Lemma scanRows_seen options rows k :
  k ∈ seen (scanRows options rows) ↔
  skipped k = false ∧ ∃ r, r ∈ rows ∧ rowKey options r = k.
Proof. apply scan_seen. Qed.

Lemma skipped_false_iff (k : string) :
  skipped k = false ↔ k ≠ EmptyString ∧ k ≠ "[]".
Proof.
  unfold skipped. rewrite orb_false_iff, !bool_decide_eq_false. done.
Qed.

(** Under the full-row criterion a row is marked exactly when it has cells
    and an earlier row has its key. *)
Lemma scanRows_dups_FullRow options rows j :
  criteria options = FullRow →
  j ∈ duplicatesIndices (scanRows options rows) ↔
  ∃ r, rows !! j = Some r ∧ r ≠ [] ∧
       ∃ q r', q < j ∧ rows !! q = Some r' ∧ rowKey options r' = rowKey options r.
Proof.
  intros Hc. rewrite scanRows_dups.
  assert (∀ r, skipped (rowKey options r) = false ↔ r ≠ []) as Hs.
  { intros r. rewrite <- (skipped_FullRow options r Hc).
    by destruct (skipped (rowKey options r)). }
  split; intros (r & ? & ? & ?); exists r; (split; [done|]); (split; [|done]);
    by apply Hs.
Qed.

(** Under the first-column criterion a row is marked exactly when its key is
    neither the empty string nor the text of the two brackets and an earlier
    row has its key. *)
Lemma scanRows_dups_FirstColumn options rows j :
  criteria options ≠ FullRow →
  j ∈ duplicatesIndices (scanRows options rows) ↔
  ∃ r, rows !! j = Some r ∧
       rowKey options r ≠ EmptyString ∧ rowKey options r ≠ "[]" ∧
       ∃ q r', q < j ∧ rows !! q = Some r' ∧ rowKey options r' = rowKey options r.
Proof.
  intros _. rewrite scanRows_dups.
  split.
  - intros (r & ? & [? ?]%skipped_false_iff & ?). exists r. done.
  - intros (r & ? & ? & ? & ?). exists r. split; [done|].
    split; [by apply skipped_false_iff|done].
Qed.

(** The first row that has a given key is never marked. *)
Lemma scanRows_first_occurrence options rows i r :
  rows !! i = Some r →
  (∀ j r', j < i → rows !! j = Some r' → rowKey options r' ≠ rowKey options r) →
  i ∉ duplicatesIndices (scanRows options rows).
Proof.
  intros Hi Hfirst (r0 & Hi0 & _ & q & r' & Hq & Hr' & Hk)%scanRows_dups.
  assert (r0 = r) as -> by congruence. by apply (Hfirst q r').
Qed.

Lemma scanRows_not_skipped options rows j r :
  rows !! j = Some r → skipped (rowKey options r) = true →
  j ∉ duplicatesIndices (scanRows options rows).
Proof.
  intros Hj Hs (r' & Hj' & Hs' & _)%scanRows_dups. congruence.
Qed.

Lemma processDuplicates_remove options rows :
  mode options = Remove →
  processDuplicates rows options =
  Resolved (PlainRows
    (filterFrom (notIn (duplicatesIndices (scanRows options rows))) 0 rows)).
Proof. intros H. unfold processDuplicates. by rewrite bool_decide_eq_true_2. Qed.

Lemma processDuplicates_style options rows :
  mode options ≠ Remove →
  processDuplicates rows options =
  Resolved (StyledRows (imap (styleRow (duplicatesIndices (scanRows options rows))) rows)).
Proof. intros H. unfold processDuplicates. by rewrite bool_decide_eq_false_2. Qed.

Lemma filter_scanRows_keepFresh options rows :
  filterFrom (notIn (duplicatesIndices (scanRows options rows))) 0 rows
  = keepFresh (rowKey options) ∅ rows.
Proof.
  apply (filterFrom_keepFresh (rowKey options) rows 0 initialState).
  intros j Hj. by apply not_elem_of_empty in Hj.
Qed.

Lemma filter_scanRows_length options rows :
  length (filterFrom (notIn (duplicatesIndices (scanRows options rows))) 0 rows)
  + size (duplicatesIndices (scanRows options rows)) = length rows.
Proof.
  unfold scanRows.
  rewrite (filterFrom_length (rowKey options) rows 0 initialState).
  - change (duplicatesIndices initialState) with (∅ : gset nat).
    rewrite size_empty. lia.
  - intros j Hj. by apply not_elem_of_empty in Hj.
Qed.

(** Two rows with one key that passes the guard: the second is marked. *)
Lemma scanRows_pair options r1 r2 :
  rowKey options r1 = rowKey options r2 →
  skipped (rowKey options r1) = false →
  duplicatesIndices (scanRows options [r1; r2]) = {[ 1 ]}.
Proof.
  intros Hk Hs. apply set_eq. intros j.
  rewrite scanRows_dups, elem_of_singleton. split.
  - intros (r & Hj & _ & q & r' & Hq & Hr' & _).
    destruct j as [|[|j]]; [lia|done|]. simpl in Hj. by rewrite lookup_nil in Hj.
  - intros ->. exists r2. split; [done|]. split; [by rewrite <- Hk|].
    exists 0, r1. split; [lia|]. split; done.
Qed.

Lemma highlightStyle_marker : highlightMarker highlightStyle.
Proof. repeat split. Qed.

Lemma styleCell_value marked c : slotValue (styleCell marked c) = c.
Proof. by destruct c. Qed.

Lemma styleRow_values D i r : map slotValue (styleRow D i r) = r.
Proof.
  unfold styleRow. rewrite map_map.
  induction r as [|c r IH]; simpl; [done|]. by rewrite styleCell_value, IH.
Qed.

Lemma styleCell_style marked c o :
  styleCell marked c = SCell o →
  s o = if marked then Some highlightStyle else None.
Proof. destruct c; simpl; intros [= <-]; done. Qed.

Lemma styleRow_marked D i r :
  i ∈ D → i ≠ 0 → carriesMarker (styleRow D i r).
Proof.
  intros Hi H0 o Ho. unfold styleRow in Ho.
  rewrite bool_decide_eq_true_2, bool_decide_eq_false_2 in Ho by done.
  apply list_elem_of_fmap in Ho as (c & Hc & _). symmetry in Hc.
  apply styleCell_style in Hc. exists highlightStyle.
  split; [done|apply highlightStyle_marker].
Qed.

Lemma styleRow_unmarked D i r :
  ¬ (i ∈ D ∧ i ≠ 0) → unmarked (styleRow D i r).
Proof.
  intros Hn o Ho. unfold styleRow in Ho.
  apply list_elem_of_fmap in Ho as (c & Hc & _). symmetry in Hc.
  apply styleCell_style in Hc. rewrite Hc.
  destruct (bool_decide (i ∈ D)) eqn:Hd; [|done].
  destruct (bool_decide (i = 0)) eqn:Hz; [done|].
  apply bool_decide_eq_true in Hd. apply bool_decide_eq_false in Hz.
  destruct Hn. done.
Qed.

End ProcessFacts.

(** * The scenarios of the specification *)

Example scenario_full_row_remove :
  processDuplicates scenarioRows {| criteria := FullRow; mode := Remove |} =
  Resolved (PlainRows
    [[CStr "Name"; CStr "Qty"]; [CStr "A"; CNum 1]; [CStr "B"; CNum 2];
     [CStr "C"; CNum 3]; [CStr "B"; CNum 9]]).
Proof. vm_compute. reflexivity. Qed.

Example scenario_first_column_duplicates :
  duplicatesIndices
    (scanRows {| criteria := FirstColumn; mode := Highlight |} scenarioRows) = {[ 3; 5 ]}.
Proof. vm_compute. reflexivity. Qed.

Example scenario_keys :
  rowKey {| criteria := FullRow; mode := Remove |} [CStr "A"; CNum 1; CHole; CBool true; CNull]
  = "[" +:+ String JS.dquote ("A" +:+ String JS.dquote ",1,null,true,null]") ∧
  rowKey {| criteria := FirstColumn; mode := Remove |} [CStr "  Total Qty "; CNum 1]
  = "total qty" ∧
  rowKey {| criteria := FirstColumn; mode := Remove |} [CNum (-12)%Z]
  = "-12".
Proof. repeat split. Qed.

(** * The claims *)

(** ** The duplicate-index-set *)

(** C1. The spec marks a row iff an earlier row produced the same non-empty
    key.  The guard of the loop, written for both criteria at once, also lets
    the two-character text of an opening and a closing bracket pass as empty
    under the first-column criterion: below a header, two rows whose first
    cell holds that text share a key that is not empty, their first cell is
    not empty, and yet the later row is not marked and the key is never
    recorded. *)
Theorem C1_first_column_bracket_text_unmarked :
  let options := {| criteria := FirstColumn; mode := Remove |} in
  let rows := [[CStr "Id"; CStr "Qty"]; [CStr "[]"; CNum 1]; [CStr "[]"; CNum 2]] in
  rowKey options [CStr "[]"; CNum 1] = "[]" ∧
  rowKey options [CStr "[]"; CNum 2] = "[]" ∧
  ¬ emptyFirstCell [CStr "[]"; CNum 2] ∧
  (2 ∉ duplicatesIndices (scanRows options rows)) ∧
  duplicatesIndices (scanRows options rows) = ∅ ∧
  ("[]" ∉ seen (scanRows options rows)) ∧
  processDuplicates rows options = Resolved (PlainRows rows).
Proof.
  intros options rows.
  assert (duplicatesIndices (scanRows options rows) = ∅) as HD.
  { apply elem_of_equiv_empty_L. intros j (r & Hj & Hs & q & _ & Hq & _)%scanRows_dups.
    destruct j as [|[|[|j]]]; simpl in Hj; [lia| | |by rewrite lookup_nil in Hj];
      injection Hj as <-; vm_compute in Hs; discriminate. }
  split; [reflexivity|]. split; [reflexivity|]. split; [by vm_compute|].
  split; [rewrite HD; apply not_elem_of_empty|]. split; [done|].
  split.
  - intros [Hs _]%scanRows_seen. vm_compute in Hs. discriminate.
  - rewrite processDuplicates_remove by done. rewrite HD. reflexivity.
Qed.

(** ** Remove *)

(** C2. With action Remove the output is the input without the rows of the
    duplicate-index-set, in the original order, and it has as many rows as
    the input less the size of that set. *)
Theorem C2_remove_drops_exactly_the_duplicates rows options :
  mode options = Remove →
  let D := duplicatesIndices (scanRows options rows) in
  ∃ out,
    processDuplicates rows options = Resolved (PlainRows out) ∧
    out = withoutIndices D rows ∧
    sublist out rows ∧
    size D ≤ length rows ∧
    length out = length rows - size D.
Proof.
  intros Hmode D. eexists. split; [by apply processDuplicates_remove|].
  fold D. pose proof (filter_scanRows_length options rows) as Hlen. fold D in Hlen.
  split; [apply filterFrom_withoutIndices|].
  split; [apply filterFrom_sublist|]. lia.
Qed.

Lemma C2_remove_drops_exactly_the_duplicates_witness :
  let options := {| criteria := FullRow; mode := Remove |} in
  let rows := [[CStr "Name"; CStr "Qty"]; [CStr "A"; CNum 1]; [CStr "B"; CNum 2];
               [CStr "A"; CNum 1]; [CStr "C"; CNum 3]; [CStr "B"; CNum 9]] in
  mode options = Remove ∧
  ∃ out,
    processDuplicates rows options = Resolved (PlainRows out) ∧
    out = withoutIndices (duplicatesIndices (scanRows options rows)) rows ∧
    sublist out rows ∧
    size (duplicatesIndices (scanRows options rows)) ≤ length rows ∧
    length out = length rows - size (duplicatesIndices (scanRows options rows)).
Proof.
  intros options rows. split; [reflexivity|].
  apply (C2_remove_drops_exactly_the_duplicates rows options). reflexivity.
Defined.

(** ** Highlight *)

(** C3. With action Highlight the output has one row per input row, the cell
    values of every row are those of the input row, the rows of the
    duplicate-index-set other than row 0 carry the highlight marker (a fill
    colour, a thin black border on the four sides, a black font that is not
    bold) on their cell objects, and no other row carries a style; row 0 is
    never highlighted. *)
Theorem C3_highlight_marks_exactly_the_duplicates rows options :
  mode options = Highlight →
  let D := duplicatesIndices (scanRows options rows) in
  ∃ out,
    processDuplicates rows options = Resolved (StyledRows out) ∧
    length out = length rows ∧
    (∀ i r, rows !! i = Some r →
       ∃ sr, out !! i = Some sr ∧
             map slotValue sr = r ∧
             (i ∈ D ∧ i ≠ 0 → carriesMarker sr) ∧
             (¬ (i ∈ D ∧ i ≠ 0) → unmarked sr)) ∧
    (∀ sr, out !! 0 = Some sr → unmarked sr).
Proof.
  intros Hmode D.
  assert (mode options ≠ Remove) as Hne by (rewrite Hmode; discriminate).
  eexists. split; [by apply processDuplicates_style|]. fold D.
  split; [apply length_imap|]. split.
  - intros i r Hi. exists (styleRow D i r). split.
    + rewrite list_lookup_imap, Hi. done.
    + split; [apply styleRow_values|]. split.
      * intros [? ?]. by apply styleRow_marked.
      * apply styleRow_unmarked.
  - intros sr. rewrite list_lookup_imap.
    destruct (rows !! 0) as [r|] eqn:H0; simpl; [|done].
    intros [= <-]. apply styleRow_unmarked. intros [_ ?]. done.
Qed.

Lemma C3_highlight_marks_exactly_the_duplicates_witness :
  let options := {| criteria := FirstColumn; mode := Highlight |} in
  let rows := [[CStr "Name"; CStr "Qty"]; [CStr "A"; CNum 1]; [CStr "B"; CNum 2];
               [CStr "A"; CNum 1]; [CStr "C"; CNum 3]; [CStr "B"; CNum 9]] in
  mode options = Highlight ∧
  ∃ out,
    processDuplicates rows options = Resolved (StyledRows out) ∧
    length out = length rows ∧
    (∀ i r, rows !! i = Some r →
       ∃ sr, out !! i = Some sr ∧
             map slotValue sr = r ∧
             (i ∈ duplicatesIndices (scanRows options rows) ∧ i ≠ 0 → carriesMarker sr) ∧
             (¬ (i ∈ duplicatesIndices (scanRows options rows) ∧ i ≠ 0) → unmarked sr)) ∧
    (∀ sr, out !! 0 = Some sr → unmarked sr).
Proof.
  intros options rows. split; [reflexivity|].
  apply (C3_highlight_marks_exactly_the_duplicates rows options). reflexivity.
Defined.

(** ** Options outside the interface *)

(** C4 as stated fails: with a criterion and an action that are not among the
    recognised ones the promise is not rejected; the rows come back styled,
    keyed by their first cell. *)
Lemma C4_unrecognised_options_resolve :
  let options := {| criteria := "column"; mode := "mark" |} in
  let rows := [[CStr "Name"]; [CStr "A"]; [CStr "a "]] in
  criteria options ≠ FullRow ∧ criteria options ≠ FirstColumn ∧
  mode options ≠ Remove ∧ mode options ≠ Highlight ∧
  (¬ ∃ error, processDuplicates rows options = Rejected error) ∧
  processDuplicates rows options =
    Resolved (StyledRows
      [[SCell {| v := CStr "Name"; t := "s"; s := None |}];
       [SCell {| v := CStr "A"; t := "s"; s := None |}];
       [SCell {| v := CStr "a "; t := "s"; s := Some highlightStyle |}]]).
Proof.
  intros options rows.
  assert (processDuplicates rows options =
    Resolved (StyledRows
      [[SCell {| v := CStr "Name"; t := "s"; s := None |}];
       [SCell {| v := CStr "A"; t := "s"; s := None |}];
       [SCell {| v := CStr "a "; t := "s"; s := Some highlightStyle |}]])) as Hout
    by (vm_compute; reflexivity).
  split; [by vm_compute|]. split; [by vm_compute|].
  split; [by vm_compute|]. split; [by vm_compute|].
  split; [|exact Hout].
  intros [error Herr]. rewrite Hout in Herr. discriminate.
Qed.

(** C4, amended.  There is no InvalidPolicy error: for every table and every
    pair of option strings the promise resolves with an output table; a
    criterion other than ['row'] is handled as the first-column criterion and
    an action other than ['remove'] as Highlight. *)
Theorem C4_every_policy_resolves rows options :
  processDuplicates rows options = processDuplicates rows (effectiveOptions options) ∧
  (∃ data, processDuplicates rows options = Resolved data) ∧
  (∀ error, processDuplicates rows options ≠ Rejected error).
Proof.
  split; [|split].
  - unfold processDuplicates, scanRows, rowKey, effectiveOptions; simpl.
    destruct (bool_decide (criteria options = FullRow)) eqn:Hc;
      destruct (bool_decide (mode options = Remove)) eqn:Hm; reflexivity.
  - unfold processDuplicates. case_bool_decide; eexists; reflexivity.
  - intros error. unfold processDuplicates. case_bool_decide; discriminate.
Qed.

(** ** Remove, again *)

(** C5. Remove is idempotent: run on its own output with the same policy, it
    returns that output. *)
Theorem C5_remove_idempotent rows options out :
  mode options = Remove →
  processDuplicates rows options = Resolved (PlainRows out) →
  processDuplicates out options = Resolved (PlainRows out).
Proof.
  intros Hmode. rewrite !processDuplicates_remove by done.
  rewrite !filter_scanRows_keepFresh. intros [= <-].
  by rewrite keepFresh_idempotent.
Qed.

Lemma C5_remove_idempotent_witness :
  let options := {| criteria := FullRow; mode := Remove |} in
  let rows := [[CStr "Name"; CStr "Qty"]; [CStr "A"; CNum 1]; [CStr "B"; CNum 2];
               [CStr "A"; CNum 1]; [CStr "C"; CNum 3]; [CStr "B"; CNum 9]] in
  let out := [[CStr "Name"; CStr "Qty"]; [CStr "A"; CNum 1]; [CStr "B"; CNum 2];
              [CStr "C"; CNum 3]; [CStr "B"; CNum 9]] in
  mode options = Remove ∧
  processDuplicates rows options = Resolved (PlainRows out) ∧
  processDuplicates out options = Resolved (PlainRows out).
Proof.
  intros options rows out.
  assert (processDuplicates rows options = Resolved (PlainRows out)) as Hout
    by (vm_compute; reflexivity).
  split; [reflexivity|]. split; [exact Hout|].
  exact (C5_remove_idempotent rows options out eq_refl Hout).
Defined.

(** ** Empty keys *)

Lemma FirstColumn_not_FullRow options :
  criteria options = FirstColumn → criteria options ≠ FullRow.
Proof. intros ->. discriminate. Qed.

Lemma emptyKeyRow_skipped options r :
  emptyKeyRow options r → skipped (rowKey options r) = true.
Proof.
  intros [[Hc ->]|[Hc Hr]].
  - by apply skipped_FullRow.
  - rewrite rowKey_emptyFirstCell; [done| |done].
    by apply FirstColumn_not_FullRow.
Qed.

Lemma skipped_not_seen options rows k :
  skipped k = true → k ∉ seen (scanRows options rows).
Proof. intros Hs [Hs' _]%scanRows_seen. congruence. Qed.

Lemma all_skipped_no_duplicates options rows :
  (∀ r, r ∈ rows → skipped (rowKey options r) = true) →
  duplicatesIndices (scanRows options rows) = ∅.
Proof.
  intros Hall. apply elem_of_equiv_empty_L.
  intros j (r & Hj & Hs & _)%scanRows_dups.
  apply list_elem_of_lookup_2 in Hj. apply Hall in Hj. congruence.
Qed.

(** C6. Under both criteria a row with an empty key is never marked and its
    key never enters the seen set; a table whose first cells are all empty
    has no duplicates under the first-column criterion. *)
Theorem C6_empty_keys_never_flagged rows options :
  (∀ r, emptyKeyRow options r →
     (rowKey options r ∉ seen (scanRows options rows)) ∧
     (∀ i, rows !! i = Some r → i ∉ duplicatesIndices (scanRows options rows))) ∧
  (criteria options = FirstColumn →
   (∀ r, r ∈ rows → emptyFirstCell r) →
   duplicatesIndices (scanRows options rows) = ∅).
Proof.
  split.
  - intros r Hs%emptyKeyRow_skipped. split.
    + by apply skipped_not_seen.
    + intros i Hi. by apply (scanRows_not_skipped options rows i r).
  - intros Hc Hall. apply all_skipped_no_duplicates.
    intros r Hr. apply emptyKeyRow_skipped. right. auto.
Qed.

Lemma C6_empty_keys_never_flagged_witness :
  let options := {| criteria := FirstColumn; mode := Highlight |} in
  let rows := [[CHole; CStr "Qty"]; [CStr "  "; CNum 1]; []; [CStr "  "; CNum 1]] in
  emptyKeyRow options [CStr "  "; CNum 1] ∧
  (rowKey options [CStr "  "; CNum 1] ∉ seen (scanRows options rows)) ∧
  (3 ∉ duplicatesIndices (scanRows options rows)) ∧
  duplicatesIndices (scanRows options rows) = ∅.
Proof.
  intros options rows.
  destruct (C6_empty_keys_never_flagged rows options) as [Hrow Hall].
  assert (emptyKeyRow options [CStr "  "; CNum 1]) as He
    by (right; split; reflexivity).
  destruct (Hrow _ He) as [Hseen Hdup].
  split; [exact He|]. split; [exact Hseen|]. split; [apply Hdup; reflexivity|].
  apply Hall; [reflexivity|].
  intros r Hr. repeat (apply elem_of_cons in Hr as [->|Hr]; [by vm_compute|]).
  by apply elem_of_nil in Hr.
Defined.

(** C7 as stated fails: rows with an empty key are all kept, so an output row
    may carry the key of an earlier output row. *)
Lemma C7_empty_keys_repeat_in_output :
  let options := {| criteria := FirstColumn; mode := Remove |} in
  let rows := [[CStr "Name"; CStr "Qty"]; [CHole; CNum 1]; [CHole; CNum 2]] in
  ∃ out,
    processDuplicates rows options = Resolved (PlainRows out) ∧
    out !! 1 = Some [CHole; CNum 1] ∧
    out !! 2 = Some [CHole; CNum 2] ∧
    rowKey options [CHole; CNum 1] = rowKey options [CHole; CNum 2].
Proof.
  intros options rows. exists rows.
  split; [by vm_compute|]. repeat split.
Qed.

(** C7, amended.  With action Remove, every output row whose key passes the
    guard has a key that no earlier output row has, and the first occurrence
    of every key of the input is in the output. *)
Theorem C7_remove_keeps_first_occurrences rows options out :
  mode options = Remove →
  processDuplicates rows options = Resolved (PlainRows out) →
  (∀ p q rp rq,
     q < p → out !! p = Some rp → out !! q = Some rq →
     skipped (rowKey options rp) = false →
     rowKey options rq ≠ rowKey options rp) ∧
  (∀ i r,
     rows !! i = Some r →
     (∀ j r', j < i → rows !! j = Some r' → rowKey options r' ≠ rowKey options r) →
     (i ∉ duplicatesIndices (scanRows options rows)) ∧ r ∈ out).
Proof.
  intros Hmode. rewrite processDuplicates_remove by done. intros [= <-]. split.
  - rewrite filter_scanRows_keepFresh. intros p q rp rq Hlt Hp Hq Hs.
    destruct (keepFresh_keys (rowKey options) ∅ rows p rp Hp Hs) as [_ Hfresh].
    by apply (Hfresh q rq).
  - intros i r Hi Hfirst.
    assert (i ∉ duplicatesIndices (scanRows options rows)) as Hnot
      by (by apply (scanRows_first_occurrence options rows i r)).
    split; [done|].
    rewrite filterFrom_withoutIndices. unfold withoutIndices.
    apply list_elem_of_omap. exists i. split; [|done].
    apply list_elem_of_filter. split; [done|].
    apply elem_of_seq. apply lookup_lt_Some in Hi. lia.
Qed.

Lemma C7_remove_keeps_first_occurrences_witness :
  let options := {| criteria := FirstColumn; mode := Remove |} in
  let rows := [[CStr "Name"; CStr "Qty"]; [CStr "A"; CNum 1]; [CStr "B"; CNum 2];
               [CStr "A"; CNum 1]; [CStr "C"; CNum 3]; [CStr "B"; CNum 9]] in
  let out := [[CStr "Name"; CStr "Qty"]; [CStr "A"; CNum 1]; [CStr "B"; CNum 2];
              [CStr "C"; CNum 3]] in
  mode options = Remove ∧
  processDuplicates rows options = Resolved (PlainRows out) ∧
  rowKey options [CStr "A"; CNum 1] ≠ rowKey options [CStr "C"; CNum 3] ∧
  (1 ∉ duplicatesIndices (scanRows options rows)) ∧
  [CStr "A"; CNum 1] ∈ out.
Proof.
  intros options rows out.
  assert (processDuplicates rows options = Resolved (PlainRows out)) as Hout
    by (vm_compute; reflexivity).
  destruct (C7_remove_keeps_first_occurrences rows options out eq_refl Hout)
    as [Hfresh Hfirst].
  split; [reflexivity|]. split; [exact Hout|]. split.
  - apply (Hfresh 3 1); [lia|reflexivity|reflexivity|by vm_compute].
  - apply (Hfirst 1); [reflexivity|].
    intros j r' Hj Hr'. assert (j = 0) as -> by lia.
    injection Hr' as <-. by vm_compute.
Defined.

(** ** The empty table *)

(** C8. On the empty table the promise resolves, whatever the policy, with
    an empty table. *)
Theorem C8_empty_table_resolves_empty options :
  (∃ data, processDuplicates [] options = Resolved data ∧ emptyTable data) ∧
  (∀ error, processDuplicates [] options ≠ Rejected error).
Proof.
  unfold processDuplicates. case_bool_decide; simpl.
  - split; [by eexists|discriminate].
  - split; [by eexists|discriminate].
Qed.

(** ** Falsy first cells *)

(** C9. Under the first-column criterion a first cell holding a falsy value
    that is not a string (the number 0, the boolean false, null, no value)
    gives the empty key: the row is never marked and its key is never
    recorded; two rows that both start with the number 0 are not duplicates
    of each other. *)
Theorem C9_falsy_first_cell_has_empty_key options :
  criteria options = FirstColumn →
  (∀ rows r,
     falsyNonString (firstCell r) →
     rowKey options r = EmptyString ∧
     (rowKey options r ∉ seen (scanRows options rows)) ∧
     (∀ i, rows !! i = Some r → i ∉ duplicatesIndices (scanRows options rows))) ∧
  (∀ rest1 rest2,
     duplicatesIndices (scanRows options [CNum 0 :: rest1; CNum 0 :: rest2]) = ∅).
Proof.
  intros Hc%FirstColumn_not_FullRow.
  assert (∀ r, falsyNonString (firstCell r) → skipped (rowKey options r) = true) as Hskip.
  { intros r Hr. by rewrite rowKey_falsyNonString. }
  split.
  - intros rows r Hr. split; [by apply rowKey_falsyNonString|]. split.
    + apply skipped_not_seen. auto.
    + intros i Hi. apply (scanRows_not_skipped options rows i r); auto.
  - intros rest1 rest2. apply all_skipped_no_duplicates.
    intros r Hr. apply Hskip.
    apply elem_of_cons in Hr as [->|Hr]; [by split|].
    apply elem_of_cons in Hr as [->|Hr]; [by split|].
    by apply elem_of_nil in Hr.
Qed.

Lemma C9_falsy_first_cell_has_empty_key_witness :
  let options := {| criteria := FirstColumn; mode := Remove |} in
  let rows := [[CStr "Flag"; CStr "Qty"]; [CBool false; CNum 1]; [CNum 0; CNum 2];
               [CBool false; CNum 1]; [CNum 0; CNum 2]] in
  falsyNonString (CNum 0) ∧ falsyNonString (CBool false) ∧
  rowKey options [CBool false; CNum 1] = EmptyString ∧
  (3 ∉ duplicatesIndices (scanRows options rows)) ∧
  (4 ∉ duplicatesIndices (scanRows options rows)) ∧
  duplicatesIndices (scanRows options [[CNum 0; CNum 1]; [CNum 0; CNum 1]]) = ∅.
Proof.
  intros options rows.
  destruct (C9_falsy_first_cell_has_empty_key options eq_refl) as [Hrow Hzero].
  assert (falsyNonString (CNum 0)) as H0 by (split; [reflexivity|discriminate]).
  assert (falsyNonString (CBool false)) as Hf by (split; [reflexivity|discriminate]).
  split; [exact H0|]. split; [exact Hf|].
  destruct (Hrow rows [CBool false; CNum 1] Hf) as (Hkey & _ & Hdup3).
  destruct (Hrow rows [CNum 0; CNum 2] H0) as (_ & _ & Hdup4).
  split; [exact Hkey|]. split; [apply Hdup3; reflexivity|].
  split; [apply Hdup4; reflexivity|]. apply Hzero.
Defined.

(** ** Rows of empty strings under the full-row criterion *)

(** C10. Under the full-row criterion the guard exempts the row without cells
    and no other; a row of one or more empty strings has a key that passes
    the guard, so the later of two such rows is marked: Remove drops it and
    Highlight marks its cells. *)
Theorem C10_rows_of_empty_strings_are_duplicates options :
  criteria options = FullRow →
  (∀ r, skipped (rowKey options r) = true ↔ r = []) ∧
  (∀ n, 0 < n →
     let r := replicate n (CStr EmptyString) in
     skipped (rowKey options r) = false ∧
     (∀ rows i j, i < j → rows !! i = Some r → rows !! j = Some r →
        j ∈ duplicatesIndices (scanRows options rows)) ∧
     (mode options = Remove →
        processDuplicates [r; r] options = Resolved (PlainRows [r])) ∧
     (mode options = Highlight →
        ∃ sr0 sr1,
          processDuplicates [r; r] options = Resolved (StyledRows [sr0; sr1]) ∧
          unmarked sr0 ∧ map slotValue sr1 = r ∧
          carriesMarker sr1 ∧ ∃ o, SCell o ∈ sr1)).
Proof.
  intros Hc. split; [intros r; by apply skipped_FullRow|].
  intros n Hn r.
  assert (skipped (rowKey options r) = false) as Hs.
  { destruct (skipped (rowKey options r)) eqn:Hs; [|done].
    apply skipped_FullRow in Hs; [|done]. destruct n; [lia|done]. }
  assert (duplicatesIndices (scanRows options [r; r]) = {[ 1 ]}) as HD
    by (by apply scanRows_pair).
  split; [done|]. split; [|split].
  - intros rows i j Hij Hi Hj. apply scanRows_dups.
    exists r. split; [done|]. split; [done|]. exists i, r. done.
  - intros Hmode. rewrite processDuplicates_remove by done. rewrite HD.
    reflexivity.
  - intros Hmode. exists (styleRow {[ 1 ]} 0 r), (styleRow {[ 1 ]} 1 r).
    rewrite processDuplicates_style by (rewrite Hmode; discriminate).
    rewrite HD. split; [done|].
    split; [apply styleRow_unmarked; intros [_ ?]; done|].
    split; [apply styleRow_values|].
    split; [apply styleRow_marked; [by apply elem_of_singleton|done]|].
    destruct n as [|n]; [lia|]. eexists. subst r. simpl. left.
Qed.

Lemma C10_rows_of_empty_strings_are_duplicates_witness :
  let options := {| criteria := FullRow; mode := Remove |} in
  let r := [CStr EmptyString; CStr EmptyString] in
  criteria options = FullRow ∧
  skipped (rowKey options r) = false ∧
  (2 ∈ duplicatesIndices (scanRows options [[CStr "Name"; CStr "Qty"]; r; r])) ∧
  processDuplicates [r; r] options = Resolved (PlainRows [r]).
Proof.
  intros options r.
  destruct (C10_rows_of_empty_strings_are_duplicates options eq_refl) as [_ Hrows].
  destruct (Hrows 2 (Nat.lt_0_succ 1)) as (Hs & Hdup & Hremove & _).
  split; [reflexivity|]. split; [exact Hs|]. split.
  - apply (Hdup _ 1 2); [lia|reflexivity|reflexivity].
  - apply Hremove. reflexivity.
Defined.

(** * Further properties of the scan and of Remove *)

Section MoreScanFacts.
Context {A : Type}.
Variable key : A → string.

Implicit Types (st : scanState) (rows : list A) (i j : nat).

(** Every row is skipped, recorded as the first of its key, or marked. *)
Lemma forEachFrom_partition rows i st :
  (∀ j, j ∈ duplicatesIndices st → j < i) →
  size (seen (forEachFrom key i rows st))
  + size (duplicatesIndices (forEachFrom key i rows st))
  + length (filter (λ r, skipped (key r) = true) rows)
  = size (seen st) + size (duplicatesIndices st) + length rows.
Proof.
  revert i st. induction rows as [|r rest IH]; intros i st Hlt; cbn [forEachFrom].
  { rewrite filter_nil. simpl. lia. }
  assert (∀ j, j ∈ duplicatesIndices (visit key st i r) → j < S i) as Hlt'.
  { intros j [?|(-> & _)]%visit_dups; [|lia].
    assert (j < i) by auto. lia. }
  specialize (IH (S i) (visit key st i r) Hlt').
  assert (i ∉ duplicatesIndices st) as Hfresh.
  { intros Hi. apply Hlt in Hi. lia. }
  rewrite filter_cons. cbn [length]. revert IH. unfold visit.
  destruct (skipped (key r)) eqn:Hs.
  - rewrite decide_True by done. simpl. lia.
  - rewrite decide_False by done.
    case_bool_decide as Hk; simpl.
    + rewrite size_union by set_solver. rewrite size_singleton. lia.
    + rewrite size_union by set_solver. rewrite size_singleton. lia.
Qed.

(** Rows appended to a table are filtered against the keys the table left. *)
Lemma keepFresh_app rows more i st :
  keepFresh key (seen st) (rows ++ more)
  = keepFresh key (seen st) rows
    ++ keepFresh key (seen (forEachFrom key i rows st)) more.
Proof.
  revert i st. induction rows as [|r rest IH]; intros i st; simpl; [done|].
  specialize (IH (S i) (visit key st i r)). revert IH. unfold visit.
  destruct (skipped (key r)) eqn:Hs; simpl.
  - intros ->. done.
  - case_bool_decide as Hk; simpl; intros ->; done.
Qed.

Lemma keepFresh_sublist (known : gset string) rows :
  sublist (keepFresh key known rows) rows.
Proof.
  revert known. induction rows as [|r rest IH]; intros known; simpl; [constructor|].
  destruct (skipped (key r)); [by apply sublist_skip|].
  case_bool_decide; [by apply sublist_cons|by apply sublist_skip].
Qed.

Lemma filterFrom_all (f : nat → bool) i rows :
  (∀ j, f j = true) → filterFrom f i rows = rows.
Proof.
  intros Hf. revert i. induction rows as [|r rest IH]; intros i; simpl; [done|].
  by rewrite Hf, IH.
Qed.
Lemma filterFrom_all_from (f : nat → bool) i rows :
  (∀ j, i ≤ j → f j = true) → filterFrom f i rows = rows.
Proof.
  intros Hf. rewrite (filterFrom_ext f (λ _, true) i rows Hf).
  by apply filterFrom_all.
Qed.
End MoreScanFacts.

(** X1. The first row of a table is never marked, whatever its key, and
    Remove returns a table that starts with it. *)
Theorem first_row_is_never_a_duplicate options rows :
  (0 ∉ duplicatesIndices (scanRows options rows)) ∧
  (∀ r rest, rows = r :: rest → mode options = Remove →
     ∃ out, processDuplicates rows options = Resolved (PlainRows (r :: out))).
Proof.
  split.
  - intros (r & _ & _ & q & _ & Hq & _)%scanRows_dups. lia.
  - intros r rest -> Hmode. rewrite processDuplicates_remove by done.
    rewrite filter_scanRows_keepFresh. simpl.
    destruct (skipped (rowKey options r)); [by eexists|].
    rewrite bool_decide_eq_false_2 by apply not_elem_of_empty. by eexists.
Qed.

Lemma first_row_is_never_a_duplicate_witness :
  let options := {| criteria := FirstColumn; mode := Remove |} in
  let rows := [[CStr "Name"]; [CStr "name"]; [CStr "NAME "]] in
  (0 ∉ duplicatesIndices (scanRows options rows)) ∧
  ∃ out, processDuplicates rows options = Resolved (PlainRows ([CStr "Name"] :: out)).
Proof.
  intros options rows.
  destruct (first_row_is_never_a_duplicate options rows) as [H0 Hfirst].
  split; [exact H0|]. by apply (Hfirst [CStr "Name"] [[CStr "name"]; [CStr "NAME "]]).
Defined.

(** X2. Remove keeps the rows the guard skips and one row for each key the
    scan has seen: the output has as many rows as there are skipped rows and
    keys in the seen set. *)
Theorem remove_keeps_one_row_per_key rows options out :
  mode options = Remove →
  processDuplicates rows options = Resolved (PlainRows out) →
  length out = length (skippedRows options rows) + size (seen (scanRows options rows)) ∧
  length rows = length out + size (duplicatesIndices (scanRows options rows)).
Proof.
  intros Hmode. rewrite processDuplicates_remove by done. intros [= <-].
  pose proof (filter_scanRows_length options rows) as Hlen.
  pose proof (forEachFrom_partition (rowKey options) rows 0 initialState) as Hpart.
  change (seen initialState) with (∅ : gset string) in Hpart.
  change (duplicatesIndices initialState) with (∅ : gset nat) in Hpart.
  rewrite !size_empty in Hpart. unfold skippedRows. unfold scanRows in *.
  split; [|lia].
  assert (∀ j : nat, j ∈ (∅ : gset nat) → j < 0) as Hempty
    by (intros j Hj; by apply not_elem_of_empty in Hj).
  specialize (Hpart Hempty). lia.
Qed.

Lemma remove_keeps_one_row_per_key_witness :
  let options := {| criteria := FirstColumn; mode := Remove |} in
  let rows := [[CStr "Name"]; [CStr "A"]; []; [CStr "a"]; [CHole; CNum 1]; [CStr "B"]] in
  let out := [[CStr "Name"]; [CStr "A"]; []; [CHole; CNum 1]; [CStr "B"]] in
  processDuplicates rows options = Resolved (PlainRows out) ∧
  length out = length (skippedRows options rows) + size (seen (scanRows options rows)) ∧
  length rows = length out + size (duplicatesIndices (scanRows options rows)).
Proof.
  intros options rows out.
  assert (processDuplicates rows options = Resolved (PlainRows out)) as Hout
    by (vm_compute; reflexivity).
  split; [exact Hout|].
  exact (remove_keeps_one_row_per_key rows options out eq_refl Hout).
Defined.

(** X3. Rows appended to a table change neither the marks of the rows before
    them nor what Remove returns for those: the output of the longer table
    is the output of the table followed by rows of the appended part. *)
Theorem appended_rows_extend_the_output rows more options :
  mode options = Remove →
  (∀ j, j < length rows →
     j ∈ duplicatesIndices (scanRows options (rows ++ more)) ↔
     j ∈ duplicatesIndices (scanRows options rows)) ∧
  ∃ out tail,
    processDuplicates rows options = Resolved (PlainRows out) ∧
    processDuplicates (rows ++ more) options = Resolved (PlainRows (out ++ tail)) ∧
    sublist tail more.
Proof.
  intros Hmode. split.
  - intros j Hj. rewrite !scanRows_dups.
    split; intros (r & Hr & Hs & q & r' & Hq & Hr' & Hk); exists r.
    + rewrite lookup_app_l in Hr by done. split; [done|]. split; [done|].
      exists q, r'. rewrite lookup_app_l in Hr' by lia. done.
    + rewrite lookup_app_l by done. split; [done|]. split; [done|].
      exists q, r'. rewrite lookup_app_l by lia. done.
  - rewrite !processDuplicates_remove by done.
    rewrite !filter_scanRows_keepFresh.
    pose proof (keepFresh_app (rowKey options) rows more 0 initialState) as Happ.
    change (seen initialState) with (∅ : gset string) in Happ.
    eexists _, _. split; [done|]. split; [by rewrite Happ|].
    apply keepFresh_sublist.
Qed.

Lemma appended_rows_extend_the_output_witness :
  let options := {| criteria := FullRow; mode := Remove |} in
  let rows := [[CStr "Name"]; [CStr "A"]; [CStr "A"]] in
  let more := [[CStr "B"]; [CStr "A"]] in
  mode options = Remove ∧
  ∃ out tail,
    processDuplicates rows options = Resolved (PlainRows out) ∧
    processDuplicates (rows ++ more) options = Resolved (PlainRows (out ++ tail)) ∧
    sublist tail more.
Proof.
  intros options rows more. split; [reflexivity|].
  apply (appended_rows_extend_the_output rows more options). reflexivity.
Defined.

(** X4. Remove returns the table as it is exactly when no key that passes
    the guard occurs twice. *)
Theorem remove_returns_the_input_iff_keys_distinct rows options :
  mode options = Remove →
  processDuplicates rows options = Resolved (PlainRows rows) ↔
  (∀ i j ri rj, i < j → rows !! i = Some ri → rows !! j = Some rj →
     skipped (rowKey options rj) = false → rowKey options ri ≠ rowKey options rj).
Proof.
  intros Hmode. rewrite processDuplicates_remove by done.
  pose proof (filter_scanRows_length options rows) as Hlen. split.
  - intros [= Hout]. rewrite Hout in Hlen.
    assert (size (duplicatesIndices (scanRows options rows)) = 0) as Hsize by lia.
    apply size_empty_iff in Hsize.
    intros i j ri rj Hij Hi Hj Hs Hk.
    apply (not_elem_of_empty (C:=gset nat) j). apply Hsize.
    apply scanRows_dups. exists rj. split; [done|]. split; [done|].
    by exists i, ri.
  - intros Hdistinct. do 2 f_equal. apply filterFrom_all. intros j.
    unfold notIn. rewrite bool_decide_eq_false_2; [done|].
    intros (r & Hr & Hs & q & r' & Hq & Hr' & Hk)%scanRows_dups.
    by apply (Hdistinct q j r' r).
Qed.

Lemma remove_returns_the_input_iff_keys_distinct_witness :
  let options := {| criteria := FirstColumn; mode := Remove |} in
  let rows := [[CStr "Name"]; [CStr "A"]; [CHole]; [CHole]; [CStr "B"]] in
  processDuplicates rows options = Resolved (PlainRows rows) ∧
  rowKey options [CStr "A"] ≠ rowKey options [CStr "B"].
Proof.
  intros options rows.
  assert (processDuplicates rows options = Resolved (PlainRows rows)) as Hout
    by (vm_compute; reflexivity).
  split; [exact Hout|].
  destruct (remove_returns_the_input_iff_keys_distinct rows options eq_refl) as [Hto _].
  apply (Hto Hout 1 4); [lia|reflexivity|reflexivity|by vm_compute].
Defined.

(** * The full-row key tells rows apart *)

Section StringifyFacts.

Implicit Types (c : cell) (r : row) (x y str : string).

Lemma string_app_cons (a : ascii) x y : String a x +:+ y = String a (x +:+ y).
Proof. reflexivity. Qed.

Lemma string_app_assoc x y z : (x +:+ y) +:+ z = x +:+ (y +:+ z).
Proof.
  induction x as [|a x IH]; [reflexivity|].
  rewrite !string_app_cons. by rewrite IH.
Qed.

Lemma unescapeHead_escapeChar (a : ascii) x :
  unescapeHead (JS.escapeChar a +:+ x) = Some (a, x).
Proof. destruct a as [[] [] [] [] [] [] [] []]; reflexivity. Qed.

Lemma unescapeHead_dquote x : unescapeHead (String JS.dquote x) = None.
Proof. reflexivity. Qed.

(** The escaped text up to the closing quote determines the text. *)
Lemma escapeString_inj_app str str' x y :
  JS.escapeString str +:+ String JS.dquote x
  = JS.escapeString str' +:+ String JS.dquote y →
  str = str' ∧ x = y.
Proof.
  revert str'. induction str as [|a str IH]; intros [|a' str']; simpl.
  - intros [= ->]. done.
  - rewrite string_app_assoc. intros H. apply (f_equal unescapeHead) in H.
    rewrite unescapeHead_escapeChar in H. discriminate.
  - rewrite string_app_assoc. intros H. apply (f_equal unescapeHead) in H.
    rewrite unescapeHead_escapeChar in H. discriminate.
  - rewrite !string_app_assoc. intros H. apply (f_equal unescapeHead) in H.
    rewrite !unescapeHead_escapeChar in H. injection H as -> H.
    apply IH in H as [-> ->]. done.
Qed.

Lemma pretty_N_go_numeric (n : N) str :
  allChars numericChar str = true → allChars numericChar (pretty_N_go n str) = true.
Proof.
  revert str. induction (N.lt_wf_0 n) as [n _ IH]; intros str Hstr.
  destruct (decide (n = 0%N)) as [->|Hn].
  - by rewrite pretty_N_go_0.
  - rewrite pretty_N_go_step by lia. apply IH; [apply N.div_lt; lia|].
    simpl. rewrite Hstr, andb_true_r.
    unfold pretty_N_char. by repeat case_match.
Qed.

Lemma pretty_Z_numeric (n : Z) : allChars numericChar (pretty n) = true.
Proof.
  assert (∀ m : N, allChars numericChar (pretty m) = true) as HN.
  { intros m. unfold pretty, pretty_N. case_decide; [done|].
    by apply pretty_N_go_numeric. }
  destruct n as [|p|p]; [done|apply (HN (N.pos p))|].
  change (pretty (Z.neg p)) with ("-" +:+ pretty (N.pos p)).
  simpl. apply (HN (N.pos p)).
Qed.

(** Two runs of numeric characters, each followed by a terminator. *)
Lemma numeric_prefix_inj str str' x y :
  allChars numericChar str = true → allChars numericChar str' = true →
  terminated x → terminated y →
  str +:+ x = str' +:+ y → str = str' ∧ x = y.
Proof.
  revert str'. induction str as [|a str IH]; intros [|a' str']; simpl.
  - done.
  - intros _ [Ha _]%andb_true_iff Hx _. rewrite string_app_cons.
    destruct x as [|b x]; [done|]. intros [= -> _].
    destruct Hx as [->| ->]; discriminate.
  - intros [Ha _]%andb_true_iff _ _ Hy. rewrite string_app_cons.
    destruct y as [|b y]; [done|]. intros [= <- _].
    destruct Hy as [->| ->]; discriminate.
  - intros [_ Hs]%andb_true_iff [_ Hs']%andb_true_iff Hx Hy.
    rewrite !string_app_cons. intros [= -> H].
    destruct (IH _ Hs Hs' Hx Hy H) as [-> ->]. done.
Qed.

Lemma pretty_Z_head (n : Z) :
  ∃ a str, pretty n = String a str ∧ numericChar a = true.
Proof.
  pose proof (pretty_Z_numeric n) as Hnum. pose proof (pretty_Z_nonempty n) as Hne.
  destruct (pretty n) as [|a str]; [done|].
  apply andb_true_iff in Hnum as [Ha _]. by exists a, str.
Qed.

Lemma sameJSON_stringifyElement c c' :
  sameJSON c c' → stringifyElement c = stringifyElement c'.
Proof.
  intros [[H H']| ->]; [|done].
  destruct c; try discriminate; destruct c'; try discriminate; done.
Qed.

(** An element followed by a terminator determines the cell, up to the three
    values written as [null]. *)
Lemma stringifyElement_inj_app c c' x y :
  terminated x → terminated y →
  stringifyElement c +:+ x = stringifyElement c' +:+ y →
  sameJSON c c' ∧ x = y.
Proof.
  intros Hx Hy.
  assert (∀ n str (z : Z), numericChar (ascii_of_nat n) = false →
            pretty z +:+ x = String (ascii_of_nat n) str → False) as Hnum.
  { intros n str z Hn H. destruct (pretty_Z_head z) as (a & t' & Hz & Ha).
    rewrite Hz, string_app_cons in H. injection H as -> _. congruence. }
  assert (∀ n str (z : Z), numericChar (ascii_of_nat n) = false →
            String (ascii_of_nat n) str = pretty z +:+ y → False) as Hnum'.
  { intros n str z Hn H. destruct (pretty_Z_head z) as (a & t' & Hz & Ha).
    rewrite Hz, string_app_cons in H. injection H as <- _. congruence. }
  destruct c as [| | |[]|n|str]; destruct c' as [| | |[]|n'|str']; simpl;
    try (intros H; apply (inj (String.app _)) in H; split;
         [first [by right|by (left; split)]|done]);
    try discriminate;
    try (intros H; exfalso; first
           [ by apply (Hnum 110 _ _ eq_refl H) | by apply (Hnum 116 _ _ eq_refl H)
           | by apply (Hnum 102 _ _ eq_refl H) | by apply (Hnum 34 _ _ eq_refl H)
           | by apply (Hnum' 110 _ _ eq_refl H) | by apply (Hnum' 116 _ _ eq_refl H)
           | by apply (Hnum' 102 _ _ eq_refl H) | by apply (Hnum' 34 _ _ eq_refl H) ]).
  - intros H.
    destruct (numeric_prefix_inj _ _ _ _ (pretty_Z_numeric n) (pretty_Z_numeric n') Hx Hy H)
      as [Heq ->].
    apply (inj pretty) in Heq as ->. split; [by right|done].
  - unfold JS.quoteJSONString. rewrite !string_app_cons, !string_app_assoc.
    intros [= H]. apply escapeString_inj_app in H as [-> ->].
    split; [by right|done].
Qed.

Lemma join_elementsTail (e : string) (l : list string) :
  JS.join "," (e :: l) +:+ "]" = e +:+ elementsTail l.
Proof.
  revert e. induction l as [|e' l IH]; intros e; [done|].
  change (JS.join "," (e :: e' :: l)) with (e +:+ "," +:+ JS.join "," (e' :: l)).
  rewrite !string_app_assoc. rewrite IH. done.
Qed.

Lemma elementsTail_terminated (l : list string) : terminated (elementsTail l).
Proof. destruct l; [by right|by left]. Qed.

Lemma elementsTail_inj r r' :
  elementsTail (map stringifyElement r) = elementsTail (map stringifyElement r') →
  Forall2 sameJSON r r'.
Proof.
  revert r'. induction r as [|c r IH]; intros [|c' r']; simpl;
    [constructor|discriminate..|].
  rewrite !string_app_cons. intros [= H].
  apply stringifyElement_inj_app in H as [Hc H]; [|apply elementsTail_terminated..].
  constructor; [done|by apply IH].
Qed.

Lemma stringify_cons c r :
  stringify (c :: r) = "[" +:+ stringifyElement c +:+ elementsTail (map stringifyElement r).
Proof.
  unfold stringify. rewrite <- join_elementsTail. done.
Qed.
End StringifyFacts.

(** Equal texts, equal rows. *)
Lemma stringify_eq_iff (r r' : row) :
  stringify r = stringify r' ↔ Forall2 sameJSON r r'.
Proof.
  split.
  - destruct r as [|c r], r' as [|c' r'].
    + constructor.
    + intros H. symmetry in H. by apply stringify_brackets in H.
    + intros H. by apply stringify_brackets in H.
    + rewrite !stringify_cons. intros [= H].
      apply stringifyElement_inj_app in H as [Hc H]; [|apply elementsTail_terminated..].
      constructor; [done|by apply elementsTail_inj].
  - intros H. unfold stringify.
    assert (map stringifyElement r = map stringifyElement r') as ->; [|done].
    induction H as [|c c' r r' Hc _ IH]; [done|].
    cbn [map]. by rewrite (sameJSON_stringifyElement c c' Hc), IH.
Qed.

(** X5. JSON.stringify gives two rows the same text exactly when they have
    the same cells in the same order, where a hole, [undefined] and [null]
    count as the same cell: a number and the text of its digits, or two texts
    that differ in case or in a blank, give different keys. *)
Theorem stringify_tells_rows_apart (r r' : row) :
  stringify r = stringify r' ↔ Forall2 sameJSON r r'.
Proof. apply stringify_eq_iff. Qed.

(** The marks of the full-row criterion, by cells. *)
Lemma scanRows_dups_sameJSON rows options j :
  criteria options = FullRow →
  j ∈ duplicatesIndices (scanRows options rows) ↔
  ∃ r, rows !! j = Some r ∧ r ≠ [] ∧
       ∃ i r', i < j ∧ rows !! i = Some r' ∧ Forall2 sameJSON r' r.
Proof.
  intros Hc. rewrite scanRows_dups_FullRow by done.
  split; intros (r & Hr & Hne & i & r' & Hi & Hr' & Hk); exists r;
    (split; [done|]); (split; [done|]); exists i, r'; (split; [done|]);
    (split; [done|]).
  - apply stringify_eq_iff. by rewrite <- !(rowKey_FullRow options).
  - rewrite !rowKey_FullRow by done. by apply stringify_eq_iff.
Qed.

(** X6. Under the full-row criterion a row is marked exactly when it has
    cells and an earlier row has the same cells (a hole, [undefined] and
    [null] counting as the same cell). *)
Theorem full_row_duplicates_are_repeated_rows rows options j :
  criteria options = FullRow →
  j ∈ duplicatesIndices (scanRows options rows) ↔
  ∃ r, rows !! j = Some r ∧ r ≠ [] ∧
       ∃ i r', i < j ∧ rows !! i = Some r' ∧ Forall2 sameJSON r' r.
Proof. apply scanRows_dups_sameJSON. Qed.

Lemma full_row_duplicates_are_repeated_rows_witness :
  let options := {| criteria := FullRow; mode := Highlight |} in
  let rows := [[CStr "Name"; CStr "Qty"]; [CStr "A"; CNum 1; CNull];
               [CStr "A"; CStr "1"; CNull]; [CStr "A"; CNum 1; CHole]] in
  (3 ∈ duplicatesIndices (scanRows options rows)) ∧
  (2 ∉ duplicatesIndices (scanRows options rows)).
Proof.
  intros options rows.
  pose proof (full_row_duplicates_are_repeated_rows rows options 3 eq_refl) as H3.
  pose proof (full_row_duplicates_are_repeated_rows rows options 2 eq_refl) as H2.
  split.
  - apply H3. exists [CStr "A"; CNum 1; CHole]. split; [reflexivity|].
    split; [discriminate|]. exists 1, [CStr "A"; CNum 1; CNull].
    split; [lia|]. split; [reflexivity|].
    repeat constructor; by (right || (left; split)).
  - intros (r & Hr & _ & i & r' & Hi & Hr' & Hsame)%H2.
    injection Hr as <-.
    destruct i as [|[|i]]; [| |lia]; injection Hr' as <-.
    + inversion Hsame as [|? ? ? ? [[? ?]|?] ?]; discriminate.
    + inversion Hsame as [|? ? ? ? _ Htl]. subst.
      inversion Htl as [|? ? ? ? [[? ?]|?] ?]; discriminate.
Defined.

(** * cleanExcel *)

Section TrimFacts.

Implicit Types (str : string) (a : ascii).

Lemma trimStart_head str a :
  headChar (JS.trimStart str) = Some a → JS.isWhiteSpace a = false.
Proof.
  induction str as [|b str IH]; simpl; [done|].
  destruct (JS.isWhiteSpace b) eqn:Hb; [done|]. simpl. by intros [= <-].
Qed.

Lemma trimStart_fixed str :
  (∀ a, headChar str = Some a → JS.isWhiteSpace a = false) →
  JS.trimStart str = str.
Proof.
  destruct str as [|b str]; simpl; [done|].
  intros H. by rewrite (H b eq_refl).
Qed.

Lemma trimEnd_cons a str :
  JS.trimEnd (String a str) =
  match JS.trimEnd str with
  | EmptyString => if JS.isWhiteSpace a then EmptyString else String a EmptyString
  | String b t => String a (String b t)
  end.
Proof. simpl. by destruct (JS.trimEnd str). Qed.

Lemma trimEnd_head str a :
  headChar str = Some a → JS.isWhiteSpace a = false →
  headChar (JS.trimEnd str) = Some a.
Proof.
  destruct str as [|b str]; [done|]. intros [= ->] Ha.
  rewrite trimEnd_cons. destruct (JS.trimEnd str); [by rewrite Ha|done].
Qed.

Lemma trimEnd_last str a :
  lastChar (JS.trimEnd str) = Some a → JS.isWhiteSpace a = false.
Proof.
  induction str as [|b str IH]; [done|]. rewrite trimEnd_cons.
  destruct (JS.trimEnd str) as [|c t].
  - destruct (JS.isWhiteSpace b) eqn:Hb; [done|]. simpl. by intros [= <-].
  - intros H. apply IH. exact H.
Qed.

Lemma trimEnd_fixed str :
  (∀ a, lastChar str = Some a → JS.isWhiteSpace a = false) →
  JS.trimEnd str = str.
Proof.
  induction str as [|b str IH]; [done|]. intros H. rewrite trimEnd_cons.
  destruct str as [|c t].
  - simpl. by rewrite (H b eq_refl).
  - rewrite IH by (intros a Ha; by apply H). done.
Qed.

Lemma trim_head str a :
  headChar (JS.trim str) = Some a → JS.isWhiteSpace a = false.
Proof.
  unfold JS.trim. intros H.
  destruct (JS.trimStart str) as [|b t] eqn:Ht; [done|].
  assert (JS.isWhiteSpace b = false) as Hb.
  { apply (trimStart_head str). by rewrite Ht. }
  rewrite (trimEnd_head (String b t) b eq_refl Hb) in H. by injection H as <-.
Qed.

Lemma trim_last str a :
  lastChar (JS.trim str) = Some a → JS.isWhiteSpace a = false.
Proof. apply trimEnd_last. Qed.

Lemma trim_fixed str :
  (∀ a, headChar str = Some a → JS.isWhiteSpace a = false) →
  (∀ a, lastChar str = Some a → JS.isWhiteSpace a = false) →
  JS.trim str = str.
Proof.
  intros Hh Hl. unfold JS.trim. rewrite trimStart_fixed by done.
  by apply trimEnd_fixed.
Qed.

Lemma trim_idempotent str : JS.trim (JS.trim str) = JS.trim str.
Proof. apply trim_fixed; [apply trim_head|apply trim_last]. Qed.

Lemma allChars_trimStart (P : ascii → bool) str :
  allChars P str = true → allChars P (JS.trimStart str) = true.
Proof.
  induction str as [|b str IH]; simpl; [done|].
  intros [Hb Hs]%andb_true_iff. destruct (JS.isWhiteSpace b); [auto|].
  simpl. by rewrite Hb, Hs.
Qed.

Lemma allChars_trimEnd (P : ascii → bool) str :
  allChars P str = true → allChars P (JS.trimEnd str) = true.
Proof.
  induction str as [|b str IH]; [done|]. intros H. simpl in H.
  apply andb_true_iff in H as [Hb Hs]. rewrite trimEnd_cons.
  specialize (IH Hs). destruct (JS.trimEnd str) as [|c t].
  - destruct (JS.isWhiteSpace b); [done|]. simpl. by rewrite Hb.
  - change (allChars P (String b (String c t)))
      with (P b && allChars P (String c t)). by rewrite Hb, IH.
Qed.

Lemma allChars_trim (P : ascii → bool) str :
  allChars P str = true → allChars P (JS.trim str) = true.
Proof. intros H. by apply allChars_trimEnd, allChars_trimStart. Qed.

Lemma length_trimStart str : String.length (JS.trimStart str) ≤ String.length str.
Proof.
  induction str as [|b str IH]; simpl; [done|].
  destruct (JS.isWhiteSpace b); simpl; lia.
Qed.

Lemma length_trimEnd str : String.length (JS.trimEnd str) ≤ String.length str.
Proof.
  induction str as [|b str IH]; [done|]. rewrite trimEnd_cons.
  destruct (JS.trimEnd str) as [|c t].
  - destruct (JS.isWhiteSpace b); simpl; lia.
  - simpl in *. lia.
Qed.

Lemma length_trim str : String.length (JS.trim str) ≤ String.length str.
Proof.
  unfold JS.trim. etrans; [apply length_trimEnd|apply length_trimStart].
Qed.
End TrimFacts.

Section CleanFacts.

Implicit Types (str : string) (a : ascii) (c : cell) (rows : list row).

Lemma string_of_list_ascii_app (l1 l2 : list ascii) :
  String.string_of_list_ascii (l1 ++ l2)
  = String.string_of_list_ascii l1 +:+ String.string_of_list_ascii l2.
Proof.
  induction l1 as [|a l1 IH]; [done|]. simpl. rewrite IH. done.
Qed.

(** The three replacements work character by character. *)
Lemma cleanBody_cons a str :
  cleanBody (String a str) = cleanBody (String a EmptyString) +:+ cleanBody str.
Proof.
  unfold cleanBody, Unicode.fromCodePoints, Unicode.normalizeNFD, Unicode.codePoints.
  cbn [String.list_ascii_of_string map flat_map].
  rewrite app_nil_r, !filter_app, map_app, string_of_list_ascii_app. done.
Qed.

(** A character leaves nothing or one printable character. *)
Lemma cleanBody_char a :
  cleanBody (String a EmptyString) = EmptyString ∨
  ∃ b, cleanBody (String a EmptyString) = String b EmptyString ∧ printableChar b = true.
Proof.
  destruct a as [[] [] [] [] [] [] [] []]; vm_compute;
    first [by left | right; eexists; split; reflexivity].
Qed.

Lemma cleanBody_printableChar a :
  printableChar a = true → cleanBody (String a EmptyString) = String a EmptyString.
Proof.
  destruct a as [[] [] [] [] [] [] [] []]; vm_compute; intros H;
    first [discriminate H | reflexivity].
Qed.

Lemma cleanBody_printable str : allChars printableChar (cleanBody str) = true.
Proof.
  induction str as [|a str IH]; [done|]. rewrite cleanBody_cons.
  destruct (cleanBody_char a) as [->|(b & -> & Hb)]; [exact IH|].
  change (allChars printableChar (String b EmptyString +:+ cleanBody str))
    with (printableChar b && allChars printableChar (cleanBody str)).
  by rewrite Hb, IH.
Qed.

Lemma cleanBody_fixed str :
  allChars printableChar str = true → cleanBody str = str.
Proof.
  induction str as [|a str IH]; [done|]. simpl.
  intros [Ha Hs]%andb_true_iff. rewrite cleanBody_cons.
  rewrite (cleanBody_printableChar a Ha), (IH Hs). done.
Qed.

Lemma cleanBody_length str : String.length (cleanBody str) ≤ String.length str.
Proof.
  induction str as [|a str IH]; [done|]. rewrite cleanBody_cons.
  destruct (cleanBody_char a) as [->|(b & -> & _)].
  - change (EmptyString +:+ cleanBody str) with (cleanBody str). simpl. lia.
  - change (String b EmptyString +:+ cleanBody str) with (String b (cleanBody str)).
    simpl. lia.
Qed.

Lemma cleanString_cleanText str : cleanText (cleanString str).
Proof.
  unfold cleanString. split; [|split].
  - apply allChars_trim, cleanBody_printable.
  - apply trim_head.
  - apply trim_last.
Qed.

Lemma cleanString_fixed str : cleanText str → cleanString str = str.
Proof.
  intros (Hp & Hh & Hl). unfold cleanString.
  rewrite cleanBody_fixed by done. by apply trim_fixed.
Qed.

Lemma cleanCell_idempotent c : cleanCell (cleanCell c) = cleanCell c.
Proof.
  destruct c; simpl; try done.
  by rewrite (cleanString_fixed _ (cleanString_cleanText _)).
Qed.
End CleanFacts.

Example cleanString_menu :
  cleanString ("  Cr" +:+ String (ascii_of_nat 232) ("me br" +:+ String (ascii_of_nat 251)
                 ("l" +:+ String (ascii_of_nat 233) ("e" +:+ String (ascii_of_nat 9) " "))))
  = "Creme brulee".
Proof. vm_compute. reflexivity. Qed.

(** X7. [cleanExcel] turns every text cell into printable ASCII (code points
    U+0020 to U+007E) that neither starts nor ends with white space. *)
Theorem cleaned_text_is_printable_and_trimmed (str : string) :
  allChars printableChar (cleanString str) = true ∧
  (∀ a, headChar (cleanString str) = Some a → JS.isWhiteSpace a = false) ∧
  (∀ a, lastChar (cleanString str) = Some a → JS.isWhiteSpace a = false) ∧
  JS.trim (cleanString str) = cleanString str.
Proof.
  destruct (cleanString_cleanText str) as (Hp & Hh & Hl).
  split; [done|]. split; [done|]. split; [done|]. by apply trim_fixed.
Qed.

Lemma cleaned_text_is_printable_and_trimmed_witness :
  let str := " " +:+ String (ascii_of_nat 201) ("clair " +:+ String (ascii_of_nat 7) " ") in
  cleanString str = "Eclair" ∧
  JS.isWhiteSpace "E"%char = false ∧ JS.isWhiteSpace "r"%char = false.
Proof.
  intros str.
  destruct (cleaned_text_is_printable_and_trimmed str) as (_ & Hh & Hl & _).
  assert (cleanString str = "Eclair") as Heq by (vm_compute; reflexivity).
  split; [exact Heq|]. split.
  - apply Hh. rewrite Heq. reflexivity.
  - apply Hl. rewrite Heq. reflexivity.
Defined.

(** X8. The texts [cleanExcel] leaves as they are are exactly the printable
    ASCII texts without white space at either end. *)
Theorem clean_text_is_left_unchanged (str : string) :
  cleanString str = str ↔ cleanText str.
Proof.
  split.
  - intros <-. apply cleanString_cleanText.
  - apply cleanString_fixed.
Qed.

(** X9. Cleaning is idempotent, for a text and for a table: cleaning what
    [cleanExcel] returned changes nothing. *)
Theorem cleaning_is_idempotent (str : string) (rows : list row) :
  cleanString (cleanString str) = cleanString str ∧
  cleanRows (cleanRows rows) = cleanRows rows.
Proof.
  split.
  - apply cleanString_fixed, cleanString_cleanText.
  - unfold cleanRows. rewrite map_map. apply map_ext. intros r.
    rewrite map_map. apply map_ext. intros c. apply cleanCell_idempotent.
Qed.

(** X10. Cleaning never makes a text longer. *)
Theorem cleaning_never_lengthens (str : string) :
  String.length (cleanString str) ≤ String.length str.
Proof.
  unfold cleanString. etrans; [apply length_trim|apply cleanBody_length].
Qed.

(** * The first-column key *)

Section FirstColumnFacts.

Implicit Types (str : string) (a : ascii) (r : row).

Lemma isWhiteSpace_lowerChar a : JS.isWhiteSpace (JS.lowerChar a) = JS.isWhiteSpace a.
Proof. destruct a as [[] [] [] [] [] [] [] []]; reflexivity. Qed.

Lemma toLowerCase_trimStart str :
  JS.toLowerCase (JS.trimStart str) = JS.trimStart (JS.toLowerCase str).
Proof.
  induction str as [|a str IH]; [done|]. simpl.
  rewrite isWhiteSpace_lowerChar. by destruct (JS.isWhiteSpace a).
Qed.

Lemma toLowerCase_trimEnd str :
  JS.toLowerCase (JS.trimEnd str) = JS.trimEnd (JS.toLowerCase str).
Proof.
  induction str as [|a str IH]; [done|].
  change (JS.toLowerCase (String a str))
    with (String (JS.lowerChar a) (JS.toLowerCase str)).
  rewrite !trimEnd_cons, <- IH, isWhiteSpace_lowerChar.
  destruct (JS.trimEnd str) as [|b t]; simpl; [|done].
  by destruct (JS.isWhiteSpace a).
Qed.

Lemma allChars_impl (P Q : ascii → bool) str :
  (∀ a, P a = true → Q a = true) → allChars P str = true → allChars Q str = true.
Proof.
  intros HPQ. induction str as [|a str IH]; simpl; [done|].
  intros [Ha Hs]%andb_true_iff. by rewrite (HPQ a Ha), IH.
Qed.





End FirstColumnFacts.

(** X11. Lower-casing and trimming commute: the key [processDuplicates]
    takes from a text in the first column (trim, then lower case) is the key
    [dictionaryFix] looks a text up by (lower case, then trim). *)
Theorem trim_and_lower_case_commute (str : string) :
  JS.toLowerCase (JS.trim str) = JS.trim (JS.toLowerCase str).
Proof.
  unfold JS.trim. by rewrite toLowerCase_trimEnd, toLowerCase_trimStart.
Qed.



(** * dictionaryFix *)

Section DictionaryFacts.

Implicit Types (text key str : string) (a : ascii).

Lemma lowerChar_notUpper a : notUpperChar (JS.lowerChar a) = true.
Proof. destruct a as [[] [] [] [] [] [] [] []]; reflexivity. Qed.

Lemma toLowerCase_notUpper str : allChars notUpperChar (JS.toLowerCase str) = true.
Proof.
  induction str as [|a str IH]; [done|]. simpl.
  by rewrite lowerChar_notUpper, IH.
Qed.

Lemma lookup_key_notUpper text :
  allChars notUpperChar (JS.trim (JS.toLowerCase text)) = true.
Proof. apply allChars_trim, toLowerCase_notUpper. Qed.

(** The inherited names a lower-case key can be. *)
Lemma inherited_lower_case_names key :
  allChars notUpperChar key = true →
  key ∈ objectPrototypeProperties →
  key = "constructor" ∨ key = "__proto__".
Proof.
  intros Hlow Hin. unfold objectPrototypeProperties in Hin.
  repeat (apply elem_of_cons in Hin as [->|Hin];
          [first [by left|by right|discriminate Hlow]|]).
  by apply elem_of_nil in Hin.
Qed.

Lemma DICTIONARY_lookup key text :
  DICTIONARY !! key = Some text →
  (key = "chiken" ∧ text = "Chicken") ∨
  (key = "buter naan" ∧ text = "Butter Naan") ∨
  (key = "french fires" ∧ text = "French Fries").
Proof.
  intros H. unfold DICTIONARY in H. apply elem_of_list_to_map_2 in H.
  repeat (apply elem_of_cons in H as [[= -> ->]|H]; [by auto|]).
  by apply elem_of_nil in H.
Qed.
End DictionaryFacts.

(** X13. [dictionaryFix] looks a text up without regard to case and to white
    space around it.  It returns the correction when the key is one of the
    three misspellings, the text as it is for every other key but two, and
    for the keys [constructor] and [__proto__] what the dictionary object
    inherits under that name, which is not a text. *)
Theorem dictionaryFix_results (text : string) :
  let key := JS.trim (JS.toLowerCase text) in
  (∀ fixed, DICTIONARY !! key = Some fixed → dictionaryFix text = FText fixed) ∧
  (key = "constructor" ∨ key = "__proto__" → dictionaryFix text = FInherited key) ∧
  (DICTIONARY !! key = None → key ≠ "constructor" → key ≠ "__proto__" →
     dictionaryFix text = FText text).
Proof.
  intros key. unfold dictionaryFix, getProperty. fold key. split; [|split].
  - intros fixed Hfixed. rewrite Hfixed.
    apply DICTIONARY_lookup in Hfixed as [[_ ->]|[[_ ->]|[_ ->]]]; reflexivity.
  - intros [-> | ->]; reflexivity.
  - intros Hnone Hc Hp. rewrite Hnone.
    rewrite bool_decide_eq_false_2; [done|]. intros Hin.
    apply inherited_lower_case_names in Hin as [?|?]; [done|done|].
    apply lookup_key_notUpper.
Qed.

Lemma dictionaryFix_results_witness :
  dictionaryFix "  CHIKEN " = FText "Chicken" ∧
  dictionaryFix " Constructor" = FInherited "constructor" ∧
  dictionaryFix "Paneer Tikka" = FText "Paneer Tikka".
Proof.
  split; [|split].
  - apply (dictionaryFix_results "  CHIKEN "). reflexivity.
  - apply (dictionaryFix_results " Constructor"). left. reflexivity.
  - apply (dictionaryFix_results "Paneer Tikka"); [reflexivity|discriminate..].
Defined.

(** X14. [dictionaryFix] is idempotent on texts: a text it returns is
    returned as it is. *)
Theorem dictionaryFix_idempotent (text fixed : string) :
  dictionaryFix text = FText fixed → dictionaryFix fixed = FText fixed.
Proof.
  unfold dictionaryFix at 1. unfold getProperty.
  destruct (DICTIONARY !! JS.trim (JS.toLowerCase text)) as [found|] eqn:Hlookup.
  - apply DICTIONARY_lookup in Hlookup as [[_ ->]|[[_ ->]|[_ ->]]];
      simpl; intros [= <-]; reflexivity.
  - case_bool_decide as Hin; simpl.
    + discriminate.
    + intros [= <-]. unfold dictionaryFix, getProperty.
      rewrite Hlookup. by rewrite bool_decide_eq_false_2.
Qed.

Lemma dictionaryFix_idempotent_witness :
  dictionaryFix "french FIRES" = FText "French Fries" ∧
  dictionaryFix "French Fries" = FText "French Fries".
Proof.
  assert (dictionaryFix "french FIRES" = FText "French Fries") as H by reflexivity.
  split; [exact H|]. exact (dictionaryFix_idempotent _ _ H).
Defined.

(** * The daily quota *)

Section QuotaFacts.

Implicit Types (st : quotaState) (n : nat).

Lemma checkQuota_count st :
  usage_count (fst (checkQuota st))
  = if DAILY_LIMIT <=? usage_count st then usage_count st else S (usage_count st).
Proof. unfold checkQuota. by destruct (DAILY_LIMIT <=? usage_count st). Qed.

Lemma checkQuotaCells_S n st :
  checkQuotaCells (S n) st
  = (fst (checkQuotaCells n (fst (checkQuota st))),
     snd (checkQuota st) :: snd (checkQuotaCells n (fst (checkQuota st)))).
Proof.
  simpl. destruct (checkQuota st) as [st' a]. simpl.
  by destruct (checkQuotaCells n st').
Qed.

Lemma checkQuotaCells_length n st : length (snd (checkQuotaCells n st)) = n.
Proof.
  revert st. induction n as [|n IH]; intros st; [done|].
  rewrite checkQuotaCells_S. simpl. by rewrite IH.
Qed.

(** The counter, the counted cells and the alert after [n] text cells. *)
Lemma checkQuotaCells_counts n st :
  usage_count st ≤ DAILY_LIMIT →
  usage_count (fst (checkQuotaCells n st)) = Nat.min (usage_count st + n) DAILY_LIMIT ∧
  passesQuota <$> snd (checkQuotaCells n st)
  = replicate (Nat.min n (DAILY_LIMIT - usage_count st)) true
    ++ replicate (n - (DAILY_LIMIT - usage_count st)) false ∧
  length (filter (λ a, isAlerting a = true) (snd (checkQuotaCells n st)))
  = (if (usage_count st <? WARNING_AT) && (WARNING_AT <=? usage_count st + n)
     then 1 else 0).
Proof.
  revert st. induction n as [|n IH]; intros st Hle.
  - change (checkQuotaCells 0 st) with (st, @nil quotaCheck). cbn [fst snd].
    rewrite Nat.add_0_r, Nat.min_0_l, Nat.sub_0_l, filter_nil.
    split; [lia|]. split; [done|].
    destruct (Nat.ltb_spec (usage_count st) WARNING_AT) as [H|H];
      destruct (Nat.leb_spec WARNING_AT (usage_count st)) as [H'|H'];
      try done; lia.
  - rewrite checkQuotaCells_S. cbn [fst snd].
    assert (usage_count (fst (checkQuota st)) ≤ DAILY_LIMIT) as Hle'.
    { rewrite checkQuota_count. destruct (Nat.leb_spec DAILY_LIMIT (usage_count st)); lia. }
    destruct (IH (fst (checkQuota st)) Hle') as (Hcount & Hadm & Halert).
    rewrite Hcount, fmap_cons, Hadm, filter_cons. clear IH Hcount Hadm.
    revert Halert Hle'. rewrite checkQuota_count. unfold checkQuota.
    destruct (Nat.leb_spec DAILY_LIMIT (usage_count st)) as [Hfull|Hroom];
      cbn [fst snd passesQuota isAlerting usage_count]; intros Halert Hle'.
    + assert (usage_count st = DAILY_LIMIT) as Heq by lia.
      rewrite Heq in *. rewrite Nat.sub_diag, !Nat.min_0_r, !Nat.sub_0_r in *.
      rewrite decide_False by done. rewrite Halert.
      split; [unfold DAILY_LIMIT; lia|]. split; [reflexivity|].
      unfold DAILY_LIMIT, WARNING_AT. reflexivity.
    + split; [lia|]. split.
      * replace (Nat.min (S n) (DAILY_LIMIT - usage_count st))
          with (S (Nat.min n (DAILY_LIMIT - S (usage_count st)))) by lia.
        replace (S n - (DAILY_LIMIT - usage_count st))
          with (n - (DAILY_LIMIT - S (usage_count st))) by lia.
        done.
      * destruct (Nat.eqb_spec (S (usage_count st)) WARNING_AT) as [Hw|Hw].
        -- rewrite decide_True by done. cbn [length]. rewrite Halert.
           repeat match goal with
           | |- context [?a <? ?b] => destruct (Nat.ltb_spec a b)
           | |- context [?a <=? ?b] => destruct (Nat.leb_spec a b)
           end; cbn [andb]; try done; lia.
        -- rewrite decide_False by done. rewrite Halert.
           repeat match goal with
           | |- context [?a <? ?b] => destruct (Nat.ltb_spec a b)
           | |- context [?a <=? ?b] => destruct (Nat.leb_spec a b)
           end; cbn [andb]; try done; lia.
Qed.

Lemma quotaStep_count st (e : quotaEvent) :
  usage_count st ≤ DAILY_LIMIT → usage_count (quotaStep st e) ≤ DAILY_LIMIT.
Proof.
  intros Hle. destruct e as [today| |]; simpl.
  - unfold resetIfNewDay. case_bool_decide; simpl; [unfold DAILY_LIMIT; lia|done].
  - rewrite checkQuota_count.
    destruct (Nat.leb_spec DAILY_LIMIT (usage_count st)); lia.
  - done.
Qed.
End QuotaFacts.

(** X15. Whatever requests, text cells and alert mails follow one another,
    the daily counter never passes [DAILY_LIMIT]. *)
Theorem quota_counter_never_exceeds_limit (events : list quotaEvent) (st : quotaState) :
  usage_count st ≤ DAILY_LIMIT →
  usage_count (foldl quotaStep st events) ≤ DAILY_LIMIT.
Proof.
  revert st. induction events as [|e events IH]; intros st Hle; simpl; [done|].
  apply IH. by apply quotaStep_count.
Qed.

Lemma quota_counter_never_exceeds_limit_witness :
  let st := {| usage_date := "Mon Nov 02 2026"; usage_count := 79; alertSentToday := true |} in
  usage_count (foldl quotaStep st [TextCell; TextCell; AlertMailSent; TextCell]) ≤ DAILY_LIMIT.
Proof.
  intros st. apply quota_counter_never_exceeds_limit.
  unfold DAILY_LIMIT. simpl. lia.
Defined.

(** X16. Of [n] text cells met with the counter at [c], the first
    [min n (DAILY_LIMIT - c)] pass the quota check and are counted, and all
    later ones throw QUOTA_EXCEEDED and fall back to the dictionary without
    being counted; the counter ends at [min (c + n) DAILY_LIMIT]. *)
Theorem quota_counts_up_to_the_limit (n : nat) (st : quotaState) :
  usage_count st ≤ DAILY_LIMIT →
  usage_count (fst (checkQuotaCells n st)) = Nat.min (usage_count st + n) DAILY_LIMIT ∧
  length (snd (checkQuotaCells n st)) = n ∧
  passesQuota <$> snd (checkQuotaCells n st)
  = replicate (Nat.min n (DAILY_LIMIT - usage_count st)) true
    ++ replicate (n - (DAILY_LIMIT - usage_count st)) false.
Proof.
  intros Hle. destruct (checkQuotaCells_counts n st Hle) as (Hcount & Hadm & _).
  split; [done|]. split; [apply checkQuotaCells_length|done].
Qed.

Lemma quota_counts_up_to_the_limit_witness :
  let st := {| usage_date := "Mon Nov 02 2026"; usage_count := 78; alertSentToday := true |} in
  usage_count (fst (checkQuotaCells 5 st)) = 80 ∧
  passesQuota <$> snd (checkQuotaCells 5 st) = [true; true; false; false; false].
Proof.
  intros st.
  assert (usage_count st ≤ DAILY_LIMIT) as Hle by (unfold DAILY_LIMIT; simpl; lia).
  destruct (quota_counts_up_to_the_limit 5 st Hle) as (Hcount & _ & Hadm).
  split; [exact Hcount|exact Hadm].
Defined.

(** X17. Among [n] text cells met with the counter at [c], [sendQuotaAlert]
    is called for exactly one cell when the counter passes through
    [WARNING_AT] (c < WARNING_AT ≤ c + n) and for none otherwise. *)
Theorem quota_alert_is_raised_once (n : nat) (st : quotaState) :
  usage_count st ≤ DAILY_LIMIT →
  length (filter (λ a, isAlerting a = true) (snd (checkQuotaCells n st)))
  = (if (usage_count st <? WARNING_AT) && (WARNING_AT <=? usage_count st + n)
     then 1 else 0).
Proof.
  intros Hle. by destruct (checkQuotaCells_counts n st Hle) as (_ & _ & Halert).
Qed.

Lemma quota_alert_is_raised_once_witness :
  let st := {| usage_date := "Mon Nov 02 2026"; usage_count := 58; alertSentToday := false |} in
  length (filter (λ a, isAlerting a = true) (snd (checkQuotaCells 30 st))) = 1.
Proof.
  intros st.
  assert (usage_count st ≤ DAILY_LIMIT) as Hle by (unfold DAILY_LIMIT; simpl; lia).
  exact (quota_alert_is_raised_once 30 st Hle).
Defined.

(** * The file list *)

Section FileFacts.

Implicit Types (files : list file) (i : nat).

Lemma validFiles_sizes (newFiles : list (option file)) :
  Forall (λ f, 0 < file_size f) (validFiles newFiles).
Proof.
  apply Forall_forall. intros f (entry & _ & Hentry)%list_elem_of_omap.
  destruct entry as [g|]; [|done].
  destruct (Nat.ltb_spec 0 (file_size g)); [|done]. by injection Hentry as <-.
Qed.

Lemma filterFrom_Forall {A : Type} (P : A → Prop) (keep : nat → bool) i (l : list A) :
  Forall P l → Forall P (filterFrom keep i l).
Proof.
  intros H. revert i. induction H as [|x l Hx _ IH]; intros i; simpl.
  - constructor.
  - destruct (keep i); [constructor; [done|]|]; apply IH.
Qed.

Lemma filterFrom_skip_one {A : Type} (k i : nat) (l : list A) :
  filterFrom (λ j, negb (j =? k + i)) k l = take i l ++ drop (S i) l.
Proof.
  revert k i. induction l as [|x l IH]; intros k i.
  - by rewrite take_nil, drop_nil.
  - cbn [filterFrom]. destruct i as [|i].
    + rewrite Nat.add_0_r, Nat.eqb_refl. simpl. rewrite drop_0.
      apply filterFrom_all_from. intros j Hj. apply negb_true_iff, Nat.eqb_neq. lia.
    + assert ((k =? k + S i) = false) as -> by (apply Nat.eqb_neq; lia). simpl.
      f_equal. rewrite <- (IH (S k) i). apply filterFrom_ext.
      intros j _. by replace (S k + i) with (k + S i) by lia.
Qed.
End FileFacts.

(** X18. The file list never holds an empty file: files of size 0 and
    entries that are not files are left out when files are added, and
    removing or clearing adds none. *)
Theorem file_list_holds_no_empty_file (multiple : bool) (events : list fileEvent)
    (files : list file) :
  Forall (λ f, 0 < file_size f) files →
  Forall (λ f, 0 < file_size f) (foldl (fileStep multiple) files events).
Proof.
  revert files. induction events as [|e events IH]; intros files Hfiles; simpl; [done|].
  apply IH. destruct e as [newFiles|index|]; simpl.
  - unfold addFiles. destruct multiple; [apply Forall_app; split; [done|]|];
      apply validFiles_sizes.
  - by apply filterFrom_Forall.
  - constructor.
Qed.

Lemma file_list_holds_no_empty_file_witness :
  let a := {| file_name := "a.xlsx"; file_size := 10 |} in
  let empty := {| file_name := "empty.xlsx"; file_size := 0 |} in
  let b := {| file_name := "b.xlsx"; file_size := 7 |} in
  foldl (fileStep true) [] [AddFiles [Some a; Some empty; None]; AddFiles [Some b]; RemoveFile 0]
  = [b] ∧
  Forall (λ f, 0 < file_size f)
    (foldl (fileStep true) [] [AddFiles [Some a; Some empty; None]; AddFiles [Some b]; RemoveFile 0]).
Proof.
  intros a empty b. split; [reflexivity|].
  apply file_list_holds_no_empty_file. constructor.
Defined.

(** X19. [removeFile] drops the file at the given position and keeps the
    others in order; a position past the end of the list removes nothing. *)
Theorem removeFile_drops_one_position (index : nat) (files : list file) :
  removeFile index files = take index files ++ drop (S index) files ∧
  (index < length files → length (removeFile index files) = length files - 1) ∧
  (length files ≤ index → removeFile index files = files).
Proof.
  assert (removeFile index files = take index files ++ drop (S index) files) as Heq.
  { unfold removeFile. apply (filterFrom_skip_one 0 index files). }
  split; [done|]. rewrite Heq. split.
  - intros Hlt. rewrite length_app, length_take, length_drop. lia.
  - intros Hge. rewrite take_ge by done. rewrite drop_ge by lia. apply app_nil_r.
Qed.

Lemma removeFile_drops_one_position_witness :
  let a := {| file_name := "a.pdf"; file_size := 10 |} in
  let b := {| file_name := "b.pdf"; file_size := 7 |} in
  let c := {| file_name := "c.pdf"; file_size := 3 |} in
  removeFile 1 [a; b; c] = [a; c] ∧
  length (removeFile 1 [a; b; c]) = 2 ∧
  removeFile 3 [a; b; c] = [a; b; c].
Proof.
  intros a b c.
  destruct (removeFile_drops_one_position 1 [a; b; c]) as (Heq & Hlen & _).
  destruct (removeFile_drops_one_position 3 [a; b; c]) as (_ & _ & Hge).
  split; [exact Heq|]. split; [apply Hlen; simpl; lia|apply Hge; simpl; lia].
Defined.

(** * How the operations compose *)

Lemma rowKey_criteria options options' (r : row) :
  criteria options' = criteria options → rowKey options' r = rowKey options r.
Proof. intros H. unfold rowKey. by rewrite H. Qed.

Lemma nullish_cleanCell (c : cell) : nullish (cleanCell c) = nullish c.
Proof. by destruct c. Qed.

Lemma sameJSON_cleanCell (c c' : cell) :
  sameJSON c c' → sameJSON (cleanCell c) (cleanCell c').
Proof.
  intros [[H H']| ->]; [|by right]. left. by rewrite !nullish_cleanCell.
Qed.

Lemma sameJSON_cleanRow (r r' : row) :
  Forall2 sameJSON r r' → Forall2 sameJSON (map cleanCell r) (map cleanCell r').
Proof.
  induction 1 as [|c c' t t' Hcc _ IH]; [constructor|].
  constructor; [by apply sameJSON_cleanCell|done].
Qed.

(** X20. Remove leaves nothing to highlight: a scan of its output under the
    same criterion marks no row, so Highlight returns that output with no
    cell styled. *)
Theorem remove_leaves_nothing_to_highlight rows options options' out :
  mode options = Remove →
  criteria options' = criteria options →
  processDuplicates rows options = Resolved (PlainRows out) →
  duplicatesIndices (scanRows options' out) = ∅ ∧
  (mode options' = Highlight →
     ∃ styled,
       processDuplicates out options' = Resolved (StyledRows styled) ∧
       Forall unmarked styled ∧
       map (map slotValue) styled = out).
Proof.
  intros Hmode Hcrit. rewrite processDuplicates_remove by done.
  rewrite filter_scanRows_keepFresh. intros [= <-].
  set (out := keepFresh (rowKey options) ∅ rows).
  assert (duplicatesIndices (scanRows options' out) = ∅) as HD.
  { apply elem_of_equiv_empty_L.
    intros j (r & Hr & Hs & q & r' & Hq & Hr' & Hk)%scanRows_dups.
    rewrite !(rowKey_criteria options options') in * by done.
    destruct (keepFresh_keys (rowKey options) ∅ rows j r Hr Hs) as [_ Hfresh].
    by apply (Hfresh q r'). }
  split; [done|]. intros Hmode'.
  rewrite processDuplicates_style by (rewrite Hmode'; discriminate).
  rewrite HD. eexists. split; [done|]. split.
  - apply Forall_forall. intros sr (i & Hi)%list_elem_of_lookup_1.
    rewrite list_lookup_imap in Hi.
    destruct (out !! i) as [r|]; simpl in Hi; [|done]. injection Hi as <-.
    apply styleRow_unmarked. intros [Hin _]. by apply not_elem_of_empty in Hin.
  - apply list_eq. intros i. rewrite list_lookup_fmap, list_lookup_imap.
    destruct (out !! i) as [r|]; simpl; [|done]. by rewrite styleRow_values.
Qed.

Lemma remove_leaves_nothing_to_highlight_witness :
  let remove := {| criteria := FirstColumn; mode := Remove |} in
  let highlight := {| criteria := FirstColumn; mode := Highlight |} in
  let rows := [[CStr "Name"]; [CStr "A"]; [CStr "a "]; [CStr "B"]] in
  let out := [[CStr "Name"]; [CStr "A"]; [CStr "B"]] in
  processDuplicates rows remove = Resolved (PlainRows out) ∧
  duplicatesIndices (scanRows highlight out) = ∅ ∧
  ∃ styled,
    processDuplicates out highlight = Resolved (StyledRows styled) ∧
    Forall unmarked styled ∧ map (map slotValue) styled = out.
Proof.
  intros remove highlight rows out.
  assert (processDuplicates rows remove = Resolved (PlainRows out)) as Hout
    by (vm_compute; reflexivity).
  destruct (remove_leaves_nothing_to_highlight rows remove highlight out
              eq_refl eq_refl Hout) as [HD Hstyled].
  split; [exact Hout|]. split; [exact HD|]. apply Hstyled. reflexivity.
Defined.

(** X21. Cleaning never separates repeated rows: under the full-row
    criterion a row marked in a table is marked in the cleaned table too. *)
Theorem cleaning_keeps_full_row_duplicates rows options j :
  criteria options = FullRow →
  j ∈ duplicatesIndices (scanRows options rows) →
  j ∈ duplicatesIndices (scanRows options (cleanRows rows)).
Proof.
  intros Hc. rewrite !scanRows_dups_sameJSON by done.
  intros (r & Hr & Hne & i & r' & Hi & Hr' & Hsame).
  exists (map cleanCell r). split.
  { unfold cleanRows. rewrite list_lookup_fmap, Hr. done. }
  split; [by destruct r|].
  exists i, (map cleanCell r'). split; [done|]. split.
  { unfold cleanRows. rewrite list_lookup_fmap, Hr'. done. }
  by apply sameJSON_cleanRow.
Qed.

Lemma cleaning_keeps_full_row_duplicates_witness :
  let options := {| criteria := FullRow; mode := Remove |} in
  let rows := [[CStr "Name"]; [CStr " A"; CNull]; [CStr " A"; CHole]] in
  (2 ∈ duplicatesIndices (scanRows options rows)) ∧
  (2 ∈ duplicatesIndices (scanRows options (cleanRows rows))).
Proof.
  intros options rows.
  assert (2 ∈ duplicatesIndices (scanRows options rows)) as H2.
  { apply scanRows_dups. exists [CStr " A"; CHole]. split; [reflexivity|].
    split; [reflexivity|]. exists 1, [CStr " A"; CNull].
    split; [lia|]. split; reflexivity. }
  split; [exact H2|].
  exact (cleaning_keeps_full_row_duplicates rows options 2 eq_refl H2).
Defined.
